(** * car-manager-server: the upload and condition endpoints of [src/index.js]

    A shallow embedding of the Express handlers of [src/index.js] and of the
    parts of their collaborators (Firestore, multer, Node's [path] and [fs])
    that the handlers rely on, followed by the properties of the
    specification that can be stated about them.

    Everything that the handlers obtain from their environment is an explicit
    argument: the document store, the disk, the clock ([Date.now()]) and the
    identifier returned by [uuidv4()]. *)

From Stdlib Require Import QArith Ascii.
From Stdlib.Strings Require Import Byte.
From stdpp Require Import gmap strings list fin_maps pretty.

Set Warnings "-register-all".
Open Scope string_scope.
Open Scope list_scope.

(** ** JavaScript values *)

Module Js.

(** The values held by a JSON request body and by a Firestore document.
    An object is a finite map from property names to values; [undefined]
    is the absence of a property, so a property read is an [option]. *)
Inductive value : Type :=
  | VNull
  | VBool (b : bool)
  | VNum (q : Q)
  | VStr (s : string)
  | VArr (l : list value)
  | VObj (m : gmap string value).

(** [!!v] of the language: [null], [false], [0] and the empty string are
    the falsy values, arrays and objects are always truthy. *)
Definition truthy (v : value) : bool :=
  match v with
  | VNull => false
  | VBool b => b
  | VNum q => negb (Z.eqb (Qnum q) 0)
  | VStr s => negb (String.eqb s "")
  | VArr _ | VObj _ => true
  end.

(** [o.p || d] where [o.p] may be [undefined]. *)
Definition or_else (a : option value) (d : value) : value :=
  match a with
  | Some v => if truthy v then v else d
  | None => d
  end.

(** The own enumerable properties copied by [{...v}]: those of an object,
    the indices of an array, nothing for [null], a boolean or a number.
    (With [express.json()] in its default strict mode only objects and
    arrays reach a handler as [req.body].) *)
Definition spread (v : value) : gmap string value :=
  match v with
  | VObj m => m
  | VArr l => list_to_map (imap (λ i x, (pretty i, x)) l)
  | _ => ∅
  end.

Definition is_null (v : value) : bool :=
  match v with VNull => true | _ => false end.

End Js.

Import Js.

(** ** Responses *)

(** [res.status(s).json(o)]; [res.json(o)] alone answers with status 200. *)
Record response : Type := Response {
  status : N;
  json : gmap string value
}.

(** ** The document store *)

Module Firestore.

(** The collection ['vehicles']: documents addressed by an opaque key, each
    a map from field names to values.  A request sees the store as it is and
    the store applies every write it is given (no fault of the remote service
    is modelled). *)
Abbreviation document := (gmap string value).
Abbreviation collection := (gmap string (gmap string value)).

(** [ref.get()]: [exists] is [is_Some], [data()] is the document. *)
Definition get (vehicleId : string) (db : collection) : option document :=
  db !! vehicleId.

(** [ref.update(fields)]: the given fields replace those of the same name,
    the other fields of the document stay. *)
Definition update (vehicleId : string) (fields : gmap string value)
    (db : collection) : collection :=
  match db !! vehicleId with
  | Some data => <[vehicleId := fields ∪ data]> db
  | None => db
  end.

(** Reading one field of one document, [None] when either is missing. *)
Definition field (db : collection) (vehicleId name : string) : option value :=
  db !! vehicleId ≫= (λ data, data !! name).

End Firestore.

(** ** The condition and vehicle routes *)

(** [{ id: uuidv4(), ...req.body }]: the properties of the body are written
    after [id], so that the union of the two maps prefers the body.  [uuid]
    is what [uuidv4()] returns for this request. *)
Definition conditionData (uuid : string) (body : value) : gmap string value :=
  spread body ∪ {[ "id" := VStr uuid ]}.

(** [POST /api/vehicles/:vehicleId/conditions] *)
Definition post_condition (uuid vehicleId : string) (body : value)
    (db : Firestore.collection) : response * Firestore.collection :=
  let conditionData := conditionData uuid body in
  match Firestore.get vehicleId db with
  | None => (Response 404 {[ "error" := VStr "Vehicle not found" ]}, db)
  | Some vehicleData =>
      match or_else (vehicleData !! "conditions") (VArr []) with
      | VArr conditions =>
          (* conditions.push(conditionData) *)
          let conditions := conditions ++ [VObj conditionData] in
          (Response 201 conditionData,
           Firestore.update vehicleId {[ "conditions" := VArr conditions ]} db)
      | _ =>
          (* a truthy value that is no array has no [push]: the TypeError
             is caught by the handler *)
          (Response 500 {[ "error" := VStr "Error adding condition";
                           "details" := VStr "conditions.push is not a function" ]},
           db)
      end
  end.

(** [condition => condition.id !== conditionId] on an element that is not
    [null]: only an object carries an [id], and only a string can be
    strictly equal to the path parameter. *)
Definition keeps (conditionId : string) (condition : value) : bool :=
  match condition with
  | VObj m =>
      match m !! "id" with
      | Some (VStr s) => negb (String.eqb s conditionId)
      | _ => true
      end
  | _ => true
  end.

(** [DELETE /api/vehicles/:vehicleId/conditions/:conditionId]. *)
Definition delete_condition (vehicleId conditionId : string)
    (db : Firestore.collection) : response * Firestore.collection :=
  match Firestore.get vehicleId db with
  | None => (Response 404 {[ "error" := VStr "Vehicle not found" ]}, db)
  | Some vehicleData =>
      match or_else (vehicleData !! "conditions") (VArr []) with
      | VArr l =>
          if existsb is_null l then
            (* reading [id] of [null] throws inside the callback *)
            (Response 500 {[ "error" := VStr "Error deleting condition";
                             "details" := VStr "Cannot read properties of null (reading 'id')" ]},
             db)
          else
            let conditions := List.filter (keeps conditionId) l in
            (Response 200 {[ "message" := VStr "Condition deleted successfully" ]},
             Firestore.update vehicleId {[ "conditions" := VArr conditions ]} db)
      | _ =>
          (Response 500 {[ "error" := VStr "Error deleting condition";
                           "details" := VStr "(vehicleData.conditions || []).filter is not a function" ]},
           db)
      end
  end.

(** [GET /api/vehicles/:vehicleId]: a read, the store is not written. *)
Definition get_vehicle (vehicleId : string) (db : Firestore.collection)
    : response :=
  match Firestore.get vehicleId db with
  | None => Response 404 {[ "error" := VStr "Vehicle not found" ]}
  | Some vehicleData =>
      (* { vehicleId, ...vehicleData, conditions: vehicleData.conditions || [] } *)
      Response 200
        (<[ "conditions" := or_else (vehicleData !! "conditions") (VArr []) ]>
           (vehicleData ∪ {[ "vehicleId" := VStr vehicleId ]}))
  end.

(** The sequence a handler works on: the [conditions] field when it is an
    array, the empty sequence when the field is missing or falsy, and
    nothing when the field holds a truthy value of another shape. *)
Definition conditions_of (data : gmap string value) : option (list value) :=
  match or_else (data !! "conditions") (VArr []) with
  | VArr l => Some l
  | _ => None
  end.

(** A record bears the identifier [i] when its [id] is that string. *)
Definition has_id (i : string) (condition : value) : Prop :=
  ∃ m, condition = VObj m ∧ m !! "id" = Some (VStr i).

(** The two ways a condition route can leave the store: as it was, or with
    the [conditions] field of the addressed document rewritten. *)
Inductive touches_conditions (vehicleId : string)
    (db : gmap string (gmap string value)) : gmap string (gmap string value) → Prop :=
  | touches_nothing : touches_conditions vehicleId db db
  | touches_field data v :
      db !! vehicleId = Some data →
      touches_conditions vehicleId db
        (<[vehicleId := <[ "conditions" := v ]> data]> db).

(** ** Errors raised on the upload path *)

(** What the callback of [upload.single('file')] can receive as [err]:
    an instance of [multer.MulterError] (identified by its [code]), the
    [Error] built by the storage callbacks, a [TypeError] thrown by the
    runtime, or the system error thrown by a call of [fs]. *)
Inductive js_error : Type :=
  | MulterError (code : string)
  | Error (message : string)
  | TypeError (message : string)
  | SystemError (code syscall path : string).

(** [err instanceof multer.MulterError] *)
Definition is_multer_error (e : js_error) : bool :=
  match e with MulterError _ => true | _ => false end.

Definition errno_text (code : string) : string :=
  if String.eqb code "EEXIST" then "file already exists"
  else if String.eqb code "ENOTDIR" then "not a directory"
  else if String.eqb code "EISDIR" then "illegal operation on a directory"
  else "no such file or directory".

(** [err.message] *)
Definition message (e : js_error) : string :=
  match e with
  | MulterError code =>
      if String.eqb code "LIMIT_FILE_SIZE" then "File too large"
      else if String.eqb code "LIMIT_UNEXPECTED_FILE" then "Unexpected field"
      else code
  | Error m | TypeError m => m
  | SystemError code syscall path =>
      code +:+ ": " +:+ errno_text code +:+ ", " +:+ syscall +:+ " '" +:+ path +:+ "'"
  end.

(** ** Node's [path] module (POSIX flavour) *)

(** [path.join] and [path.normalize] as Node defines them on POSIX systems,
    with the segments of a path handled as a list instead of one character
    at a time. *)

Module Path.

(** [s.split('/')]: the segments between separators, empty ones included. *)
Fixpoint split (s : string) : list string :=
  match s with
  | EmptyString => [""]
  | String c r =>
      if Ascii.eqb c "/"%char then "" :: split r
      else match split r with
           | h :: t => String c h :: t
           | [] => [String c ""]
           end
  end.

(** One segment met by [normalizeString]; [res] is the result so far, last
    segment first.  Empty segments and ["."] are dropped, [".."] removes the
    last segment kept, or is itself kept above the start of a relative
    path. *)
Definition step (allowAboveRoot : bool) (res : list string) (seg : string)
    : list string :=
  if String.eqb seg "" || String.eqb seg "." then res
  else if String.eqb seg ".." then
    match res with
    | last :: res' =>
        if String.eqb last ".." then (if allowAboveRoot then seg :: res else res)
        else res'
    | [] => if allowAboveRoot then [seg] else []
    end
  else seg :: res.

Definition normalizeString (segs : list string) (allowAboveRoot : bool)
    : list string :=
  rev (fold_left (step allowAboveRoot) segs []).

Fixpoint ends_with_slash (s : string) : bool :=
  match s with
  | EmptyString => false
  | String c EmptyString => Ascii.eqb c "/"%char
  | String _ r => ends_with_slash r
  end.

(** [path.normalize] *)
Definition normalize (path : string) : string :=
  match path with
  | EmptyString => "."
  | String c _ =>
      let isAbsolute := Ascii.eqb c "/"%char in
      let trailingSeparator := ends_with_slash path in
      let p := String.concat "/" (normalizeString (split path) (negb isAbsolute)) in
      match p with
      | EmptyString =>
          if isAbsolute then "/" else if trailingSeparator then "./" else "."
      | _ =>
          (if isAbsolute then "/" else "") +:+ p
            +:+ (if trailingSeparator then "/" else "")
      end
  end.

(** [path.join(...args)]: the non-empty arguments joined by a separator,
    then normalized. *)
Definition join (args : list string) : string :=
  match List.filter (λ a, negb (String.eqb a "")) args with
  | [] => "."
  | l => normalize (String.concat "/" l)
  end.

End Path.

(** ** The disk *)

(** What the upload path needs of [fs]: which directories and regular files
    exist, and when making a directory or opening a file fails. *)

Module Fs.

(** Directories and regular files, addressed by the list of segments that a
    path resolves to. *)
Record t : Type := Disk {
  dirs : gset (list string);
  files : gmap (list string) (list byte)
}.

Definition empty : t := Disk ∅ ∅.

Definition resolve (p : string) : list string :=
  Path.normalizeString (Path.split p) false.

Definition is_file (d : t) (segs : list string) : bool :=
  bool_decide (is_Some (files d !! segs)).

Definition is_dir (d : t) (segs : list string) : bool :=
  bool_decide (segs = [] ∨ segs ∈ dirs d).

(** The non-empty prefixes of a list, shortest first: a directory and all
    its ancestors below the root. *)
Fixpoint prefixes (segs : list string) : list (list string) :=
  match segs with
  | [] => []
  | s :: r => [s] :: map (cons s) (prefixes r)
  end.

(** [fs.mkdirSync(p, { recursive: true })]: throws when [p] or one of its
    ancestors is a regular file, otherwise makes the missing directories. *)
Definition mkdirSync (p : string) (d : t) : js_error + t :=
  let segs := resolve p in
  if is_file d segs then inl (SystemError "EEXIST" "mkdir" p)
  else if existsb (is_file d) (prefixes segs) then
    inl (SystemError "ENOTDIR" "mkdir" p)
  else inr (Disk (dirs d ∪ list_to_set (prefixes segs)) (files d)).

(** Opening [p] for writing, as [fs.createWriteStream(p)] does: refused on a
    directory and where the parent directory is missing. *)
Definition open_w (p : string) (d : t) : option js_error :=
  let segs := resolve p in
  if is_dir d segs then Some (SystemError "EISDIR" "open" p)
  else if is_dir d (removelast segs) then None
  else Some (SystemError "ENOENT" "open" p).

Definition write (p : string) (content : list byte) (d : t) : t :=
  Disk (dirs d) (<[resolve p := content]> (files d)).

Definition unlink (p : string) (d : t) : t :=
  Disk (dirs d) (delete (resolve p) (files d)).

End Fs.

(** ** multer *)

(** multer is a dependency of the server, not part of it.  This is
    [upload.single(fieldName)] over [multer.diskStorage], as the library
    documents it: the parts of the body are handled in the order of
    arrival, so the storage callbacks see in [req.body] the text fields that
    came before the file; an error of a storage callback is passed to the
    route as it is, an error of multer's own is a [MulterError]; a request
    that fails leaves no file of its own on the disk.  The limit is reached
    as soon as [fileSize] bytes of the file have been read, so that a file
    of [fileSize] bytes or more is refused. *)

Module Multer.

(** A multipart body, part by part in the order of arrival.  The name of a
    file part is the one multer reports in [file.originalname]: the base
    name of what the client sent, without any directory. *)
Inductive part : Type :=
  | Field (name value : string)
  | File (fieldname originalname : string) (content : list byte).

(** The value of a text field in [req.body]: a string, or an array once the
    same name has arrived again.  (Names in bracket syntax, which make nested
    objects, are not modelled.) *)
Inductive field_value : Type :=
  | Text (s : string)
  | Many (l : list string).

Definition append_field (name value : string)
    (body : gmap string field_value) : gmap string field_value :=
  match body !! name with
  | None => <[name := Text value]> body
  | Some (Text v) => <[name := Many [v; value]]> body
  | Some (Many l) => <[name := Many (l ++ [value])]> body
  end.

(** [!!req.body.name] *)
Definition field_truthy (v : option field_value) : bool :=
  match v with
  | Some (Text s) => negb (String.eqb s "")
  | Some (Many _) => true
  | None => false
  end.

(** [req.file] as the disk storage engine fills it. *)
Record file : Type := FileInfo {
  fieldname : string;
  originalname : string;
  destination : string;
  filename : string;
  path : string;
  size : N
}.

Section single.

(** The two callbacks given to [multer.diskStorage], the [fileSize] limit
    and the name of the expected file field. *)
Context (getDestination :
           gmap string field_value → string → Fs.t → js_error + string * Fs.t).
Context (getFilename : string → string).
Context (fileSize : N) (fieldName : string).

(** [DiskStorage._handleFile] under the size limit.  A stream that reaches
    the limit is cut there, the request fails with [LIMIT_FILE_SIZE] and
    the file written so far is removed. *)
Definition handleFile (body : gmap string field_value)
    (originalname : string) (content : list byte) (d : Fs.t)
    : js_error * Fs.t + file * Fs.t :=
  match getDestination body originalname d with
  | inl e => inl (e, d)
  | inr (destination, d) =>
      let filename := getFilename originalname in
      let finalPath := Path.join [destination; filename] in
      match Fs.open_w finalPath d with
      | Some e => inl (e, d)
      | None =>
          let size := N.of_nat (length content) in
          if (fileSize <=? size)%N then
            inl (MulterError "LIMIT_FILE_SIZE",
                 Fs.unlink finalPath
                   (Fs.write finalPath (take (N.to_nat fileSize) content) d))
          else
            inr (FileInfo fieldName originalname destination filename
                   finalPath size,
                 Fs.write finalPath content d)
      end
  end.

(** A failed request removes the file it has already stored. *)
Definition abort (e : js_error) (uploaded : option file) (d : Fs.t)
    : js_error * Fs.t :=
  (e, match uploaded with Some f => Fs.unlink (path f) d | None => d end).

(** The parts in order.  A text field is appended to [req.body]; a file
    part without a file name is skipped; a file under another field name,
    or a second file, is an unexpected file; the expected file goes to the
    storage engine with the body as it is at that moment. *)
Fixpoint process (parts : list part) (body : gmap string field_value)
    (uploaded : option file) (d : Fs.t)
    : js_error * Fs.t + (gmap string field_value * option file) * Fs.t :=
  match parts with
  | [] => inr (body, uploaded, d)
  | Field name value :: rest =>
      process rest (append_field name value body) uploaded d
  | File fieldname originalname content :: rest =>
      if String.eqb originalname "" then process rest body uploaded d
      else if negb (String.eqb fieldname fieldName) || bool_decide (is_Some uploaded)
      then inl (abort (MulterError "LIMIT_UNEXPECTED_FILE") uploaded d)
      else
        match handleFile body originalname content d with
        | inl (e, d) => inl (abort e uploaded d)
        | inr (f, d) => process rest body (Some f) d
        end
  end.

(** [upload.single(fieldName)(req, res, callback)]: [inl] is the [err]
    given to the callback, [inr] the [req.body] and [req.file] it finds. *)
Definition single (parts : list part) (d : Fs.t)
    : js_error * Fs.t + (gmap string field_value * option file) * Fs.t :=
  process parts ∅ None d.

End single.

End Multer.

(** ** The upload route *)

Import Multer.

(** [10 * 1024 * 1024], the [fileSize] limit given to multer. *)
Definition fileSize : N := 10 * 1024 * 1024.

(** The message of the [TypeError] of [path.join] on an argument that is
    not a string. *)
Definition path_argument_message : string :=
  "The " +:+ String "034"%char "path"
    +:+ String "034"%char
          " argument must be of type string. Received an instance of Array".

(** [storage.destination]; [dirname] is [__dirname]. *)
Definition storage_destination (dirname : string)
    (body : gmap string field_value) (originalname : string) (d : Fs.t)
    : js_error + string * Fs.t :=
  let vehicleId := body !! "vehicleId" in
  let type := body !! "type" in
  if negb (field_truthy vehicleId) || negb (field_truthy type) then
    inl (Error "Missing vehicleId or type")
  else
    match vehicleId, type with
    | Some (Text vehicleId), Some (Text type) =>
        let uploadPath :=
          Path.join [dirname; "../public/documents"; vehicleId; type] in
        match Fs.mkdirSync uploadPath d with
        | inl error => inl error
        | inr d => inr (uploadPath, d)
        end
    | _, _ => inl (TypeError path_argument_message)
    end.

(** [storage.filename]; [now] is [Date.now()], an integer far below the
    range where a number prints in exponent form. *)
Definition storage_filename (now : N) (originalname : string) : string :=
  pretty now +:+ "-" +:+ originalname.

(** [upload.single('file')] *)
Definition upload (dirname : string) (now : N) (parts : list part) (d : Fs.t)
    : js_error * Fs.t + (gmap string field_value * option file) * Fs.t :=
  Multer.single (storage_destination dirname) (storage_filename now)
    fileSize "file" parts d.

(** [POST /api/upload] *)
Definition post_upload (dirname : string) (now : N) (parts : list part)
    (d : Fs.t) : response * Fs.t :=
  match upload dirname now parts d with
  | inl (err, d) =>
      if is_multer_error err then
        (Response 400 {[ "message" := VStr "File upload error";
                         "error" := VStr (message err) ]}, d)
      else
        (Response 500 {[ "message" := VStr "Upload error";
                         "error" := VStr (message err) ]}, d)
  | inr (body, None, d) =>
      (Response 400 {[ "message" := VStr "No file uploaded";
                       "error" := VStr "File is required" ]}, d)
  | inr (body, Some file, d) =>
      let vehicleId := body !! "vehicleId" in
      let type := body !! "type" in
      if negb (field_truthy vehicleId) || negb (field_truthy type) then
        (Response 400 {[ "message" := VStr "Missing required fields";
                         "error" := VStr "vehicleId and type are required" ]}, d)
      else
        match vehicleId, type with
        | Some (Text vehicleId), Some (Text type) =>
            let relativePath :=
              Path.join ["/documents"; vehicleId; type; filename file] in
            (Response 200 {[ "message" := VStr "File uploaded successfully";
                             "path" := VStr relativePath ]}, d)
        | _, _ =>
            (Response 500 {[ "message" := VStr "Error processing upload";
                             "error" := VStr path_argument_message ]}, d)
        end
  end.

(** ** Vocabulary of the statements *)

(** A part that multer handles without calling the storage engine: a text
    field, or a file part that has no file name. *)
Definition quiet (p : part) : bool :=
  match p with
  | Field _ _ => true
  | File _ originalname _ => String.eqb originalname ""
  end.

(** [req.body] after the text fields among [parts] have been appended to
    [body], in order. *)
Fixpoint body_after (parts : list part) (body : gmap string field_value)
    : gmap string field_value :=
  match parts with
  | [] => body
  | Field name value :: rest => body_after rest (append_field name value body)
  | File _ _ _ :: rest => body_after rest body
  end.

(** A segment that [path.normalize] keeps as it is. *)
Definition kept (seg : string) : bool :=
  negb (String.eqb seg "" || String.eqb seg "." || String.eqb seg "..").

(** A string made of segments that are all kept: no empty segment, so no
    leading, trailing or doubled separator, and no ["."] or [".."]. *)
Definition clean (s : string) : bool := forallb kept (Path.split s).

(** A string without a separator: one segment, as the base name that
    multer reports in [file.originalname]. *)
Definition no_separator (s : string) : Prop := Path.split s = [s].

Definition is_digit (c : ascii) : bool :=
  (Ascii.leb "0" c && Ascii.leb c "9")%char.

Fixpoint all_chars (P : ascii → bool) (s : string) : bool :=
  match s with
  | EmptyString => true
  | String c r => P c && all_chars P r
  end.

(** The answer to an [err] of multer's callback. *)
Definition upload_failure (err : js_error) : response :=
  if is_multer_error err then
    Response 400 {[ "message" := VStr "File upload error";
                    "error" := VStr (message err) ]}
  else
    Response 500 {[ "message" := VStr "Upload error";
                    "error" := VStr (message err) ]}.

(** ** Start of the server *)

(** [documentsPath]: the directory under which the files are stored and
    which is served under [/documents]. *)
Definition documentsPath (dirname : string) : string :=
  Path.join [dirname; "../public/documents"].

(** [fs.existsSync(p)]: true of a directory and of a regular file alike. *)
Definition existsSync (p : string) (d : Fs.t) : bool :=
  Fs.is_dir d (Fs.resolve p) || Fs.is_file d (Fs.resolve p).

(** The statements that make the documents directory when the server
    starts: nothing is done when something exists at its path. *)
Definition create_documents_directory (dirname : string) (d : Fs.t)
    : js_error + Fs.t :=
  if negb (existsSync (documentsPath dirname) d) then
    Fs.mkdirSync (documentsPath dirname) d
  else inr d.

(** ** The addition, step by step *)

(** The handler of the addition waits twice: for [vehicleRef.get()] and for
    [vehicleRef.update(...)].  Another request can be served in between, so
    the handler is also given in the two steps that the second wait
    separates. *)

(** Up to [conditions.push(conditionData)]: an answer, or the record and the
    sequence that remain to be written. *)
Definition post_condition_get (uuid vehicleId : string) (body : value)
    (db : Firestore.collection)
    : response + gmap string value * list value :=
  let conditionData := conditionData uuid body in
  match Firestore.get vehicleId db with
  | None => inl (Response 404 {[ "error" := VStr "Vehicle not found" ]})
  | Some vehicleData =>
      match or_else (vehicleData !! "conditions") (VArr []) with
      | VArr conditions => inr (conditionData, conditions ++ [VObj conditionData])
      | _ =>
          inl (Response 500
                 {[ "error" := VStr "Error adding condition";
                    "details" := VStr "conditions.push is not a function" ]})
      end
  end.

(** From [vehicleRef.update] on, against the store as it is by then.  The
    store rejects the update of a document that is no longer there;
    [rejected] is the message of that error. *)
Definition post_condition_update (rejected vehicleId : string)
    (conditionData : gmap string value) (conditions : list value)
    (db : Firestore.collection) : response * Firestore.collection :=
  match Firestore.get vehicleId db with
  | Some _ =>
      (Response 201 conditionData,
       Firestore.update vehicleId {[ "conditions" := VArr conditions ]} db)
  | None =>
      (Response 500 {[ "error" := VStr "Error adding condition";
                       "details" := VStr rejected ]}, db)
  end.

(** A request with the two text fields first and then the file. *)
Definition plain_upload (vehicleId type originalname : string)
    (content : list byte) : list part :=
  [Field "vehicleId" vehicleId; Field "type" type;
   File "file" originalname content].

(** ** Concrete data used by the examples *)

Definition fiat : gmap string value :=
  {[ "make" := VStr "Fiat"; "conditions" := VArr [VObj {[ "id" := VStr "c0" ]}] ]}.

Definition garage : gmap string (gmap string value) :=
  {[ "v1" := fiat; "v2" := {[ "make" := VStr "Saab" ]} ]}.

Definition dent : value := VObj {[ "note" := VStr "dent" ]}.
Definition rust : value := VObj {[ "note" := VStr "rust" ]}.

Definition app_dir : string := "/srv/app/src".

Definition card : list byte := [x25; x50; x44; x46].

Definition oversized : list byte := repeat x00 (N.to_nat (fileSize + 1)).

Definition card_upload : list part :=
  [Field "vehicleId" "v1"; Field "type" "insurance"; File "file" "card.pdf" card].

Definition disk_with_card : Fs.t :=
  (post_upload app_dir 1700000000000 card_upload Fs.empty).2.

Definition insurance_dir : Fs.t :=
  Fs.Disk (list_to_set (Fs.prefixes
             ["srv"; "app"; "public"; "documents"; "v1"; "insurance"])) ∅.

Definition scrapped : gmap string value :=
  {[ "vehicleId" := VStr "legacy-7"; "conditions" := VNull ]}.

Definition repeated_field : list part :=
  [Field "vehicleId" "v1"; Field "type" "insurance";
   File "file" "card.pdf" card; Field "vehicleId" "v1"].

Definition scan : list byte := [x25; x50; x44; x46; x2d; x31].

Definition blocked : Fs.t :=
  Fs.Disk ∅ {[ ["srv"; "app"; "public"; "documents"] := [] ]}.

Definition scratch : value := VObj {[ "id" := VStr "a"; "note" := VStr "scratch" ]}.
Definition chip : value := VObj {[ "id" := VStr "b"; "note" := VStr "chip" ]}.
Definition leak : value := VObj {[ "id" := VStr "c"; "note" := VStr "leak" ]}.

Definition volvo : gmap string value :=
  {[ "make" := VStr "Volvo"; "conditions" := VArr [scratch; chip; leak] ]}.

Definition lada : gmap string value :=
  {[ "make" := VStr "Lada"; "conditions" := VArr [VNull; chip] ]}.

Definition yard : gmap string (gmap string value) :=
  {[ "v3" := volvo; "v4" := lada ]}.

(** * Properties *)

Example join_documents :
  Path.join ["/documents"; "v1"; "insurance"; "1700000000000-card.pdf"]
  = "/documents/v1/insurance/1700000000000-card.pdf".
Proof. reflexivity. Qed.

(** ** The document store and the sequence of conditions *)

Section store_facts.

Context (db : gmap string (gmap string value)).
Context (vehicleId : string) (data : gmap string value).
Hypothesis Hdoc : db !! vehicleId = Some data.

Lemma update_existing fields :
  Firestore.update vehicleId fields db = <[vehicleId := fields ∪ data]> db.
Proof using Hdoc. unfold Firestore.update. by rewrite Hdoc. Qed.

Lemma update_conditions l :
  Firestore.update vehicleId {[ "conditions" := VArr l ]} db
  = <[vehicleId := <[ "conditions" := VArr l ]> data]> db.
Proof using Hdoc.
  rewrite update_existing. by rewrite <-insert_union_singleton_l.
Qed.

End store_facts.

Lemma conditions_of_insert l (data : gmap string value) :
  conditions_of (<[ "conditions" := VArr l ]> data) = Some l.
Proof. unfold conditions_of. by rewrite lookup_insert_eq. Qed.

Lemma conditions_of_array (data : gmap string value) l :
  conditions_of data = Some l →
  or_else (data !! "conditions") (VArr []) = VArr l.
Proof.
  unfold conditions_of.
  destruct (or_else (data !! "conditions") (VArr [])); naive_solver.
Qed.

Lemma conditions_of_absent (data : gmap string value) :
  data !! "conditions" = None → conditions_of data = Some [].
Proof. unfold conditions_of. by intros ->. Qed.

Lemma conditionData_id_fresh uuid body :
  spread body !! "id" = None → conditionData uuid body !! "id" = Some (VStr uuid).
Proof.
  intros H. unfold conditionData.
  rewrite lookup_union_r by done. apply lookup_singleton_eq.
Qed.

Lemma conditionData_body uuid body k v :
  spread body !! k = Some v → conditionData uuid body !! k = Some v.
Proof. intros H. unfold conditionData. by apply lookup_union_Some_l. Qed.

Lemma conditionData_other uuid body k :
  k ≠ "id" → conditionData uuid body !! k = spread body !! k.
Proof.
  intros H. unfold conditionData. rewrite lookup_union.
  rewrite lookup_singleton_ne by done.
  by destruct (spread body !! k).
Qed.

Lemma conditionData_object_id uuid (m : gmap string value) :
  conditionData uuid (VObj m) !! "id" = Some (default (VStr uuid) (m !! "id")).
Proof.
  unfold conditionData. simpl. rewrite lookup_union, lookup_singleton_eq.
  by destruct (m !! "id").
Qed.

Lemma conditionData_object_other uuid (m : gmap string value) k :
  k ≠ "id" → conditionData uuid (VObj m) !! k = m !! k.
Proof. apply (conditionData_other uuid (VObj m)). Qed.

Lemma conditionData_object_body uuid (m : gmap string value) k v :
  m !! k = Some v → conditionData uuid (VObj m) !! k = Some v.
Proof. apply (conditionData_body uuid (VObj m)). Qed.

Lemma post_condition_found db vehicleId data l uuid body :
  db !! vehicleId = Some data →
  conditions_of data = Some l →
  post_condition uuid vehicleId body db
  = (Response 201 (conditionData uuid body),
     <[vehicleId :=
         <[ "conditions" := VArr (l ++ [VObj (conditionData uuid body)]) ]> data]> db).
Proof.
  intros Hdoc Hl. unfold post_condition, Firestore.get.
  rewrite Hdoc, (conditions_of_array _ _ Hl).
  by rewrite (update_conditions _ _ _ Hdoc).
Qed.

Lemma post_condition_created uuid vehicleId body
    (db : gmap string (gmap string value)) resp db' :
  post_condition uuid vehicleId body db = (resp, db') →
  status resp = 201%N →
  ∃ data l, db !! vehicleId = Some data ∧ conditions_of data = Some l.
Proof.
  unfold post_condition, Firestore.get, conditions_of.
  destruct (db !! vehicleId) as [data|]; [|by intros [= <- _]].
  destruct (or_else (data !! "conditions") (VArr [])) as [| | | |l|] eqn:E;
    try by intros [= <- _].
  intros _ _. exists data, l. by rewrite E.
Qed.

Lemma keeps_false conditionId c :
  keeps conditionId c = false ↔ has_id conditionId c.
Proof.
  unfold keeps, has_id. split.
  - destruct c as [| | | |?|m]; try done.
    destruct (m !! "id") as [[| | |s| |]|] eqn:E; try done.
    rewrite negb_false_iff, String.eqb_eq. intros ->. eauto.
  - intros (m & -> & ->). by rewrite String.eqb_refl.
Qed.

Lemma keeps_true conditionId c :
  keeps conditionId c = true ↔ ¬ has_id conditionId c.
Proof.
  rewrite <-keeps_false. destruct (keeps conditionId c); naive_solver.
Qed.

Lemma filter_keeps_all conditionId l :
  (∀ c, c ∈ l → ¬ has_id conditionId c) →
  List.filter (keeps conditionId) l = l.
Proof.
  induction l as [|c l IH]; intros H; [done|]. simpl.
  assert (keeps conditionId c = true) as ->
    by (apply keeps_true, H; left).
  f_equal. apply IH. intros c' ?. apply H. by right.
Qed.

Lemma no_null_existsb l : VNull ∉ l → existsb is_null l = false.
Proof.
  induction l as [|c l IH]; [done|]. intros H. simpl.
  rewrite IH by (intros ?; apply H; by right).
  destruct c; try done. destruct H. left.
Qed.

Lemma delete_condition_found db vehicleId conditionId data l :
  db !! vehicleId = Some data →
  conditions_of data = Some l →
  VNull ∉ l →
  delete_condition vehicleId conditionId db
  = (Response 200 {[ "message" := VStr "Condition deleted successfully" ]},
     <[vehicleId :=
         <[ "conditions" := VArr (List.filter (keeps conditionId) l) ]> data]> db).
Proof.
  intros Hdoc Hl Hnull. unfold delete_condition, Firestore.get.
  rewrite Hdoc, (conditions_of_array _ _ Hl), (no_null_existsb _ Hnull).
  by rewrite (update_conditions _ _ _ Hdoc).
Qed.

Lemma post_condition_touches uuid vehicleId body db :
  touches_conditions vehicleId db (post_condition uuid vehicleId body db).2.
Proof.
  unfold post_condition, Firestore.get.
  destruct (db !! vehicleId) as [data|] eqn:Hdoc; [|constructor].
  destruct (or_else _ _); simpl; try constructor.
  rewrite (update_conditions _ _ _ Hdoc). by constructor.
Qed.

Lemma delete_condition_touches vehicleId conditionId db :
  touches_conditions vehicleId db (delete_condition vehicleId conditionId db).2.
Proof.
  unfold delete_condition, Firestore.get.
  destruct (db !! vehicleId) as [data|] eqn:Hdoc; [|constructor].
  destruct (or_else _ _); simpl; try constructor.
  destruct (existsb _ _); simpl; [constructor|].
  rewrite (update_conditions _ _ _ Hdoc). by constructor.
Qed.

Lemma touches_conditions_field vehicleId db db' vehicleId' k :
  touches_conditions vehicleId db db' →
  vehicleId' ≠ vehicleId ∨ k ≠ "conditions" →
  Firestore.field db' vehicleId' k = Firestore.field db vehicleId' k.
Proof.
  intros [|data v Hdoc] Hne; [done|]. unfold Firestore.field.
  destruct (decide (vehicleId' = vehicleId)) as [->|Hv].
  - rewrite lookup_insert_eq, Hdoc. simpl.
    destruct Hne as [?|Hk]; [done|]. by rewrite lookup_insert_ne.
  - by rewrite lookup_insert_ne.
Qed.

Lemma touches_conditions_dom vehicleId db db' :
  touches_conditions vehicleId db db' → dom db' = dom db.
Proof.
  intros [|data v Hdoc]; [done|]. rewrite dom_insert_L.
  apply elem_of_dom_2 in Hdoc. apply set_eq. intros x.
  rewrite elem_of_union, elem_of_singleton.
  split; [intros [->|?]; done | by right].
Qed.

(** ** Adding a condition *)

(** C4. Adding a condition to a vehicle that has no document answers 404
    with the error [Vehicle not found] and leaves the store as it was. *)
Theorem post_condition_unknown_vehicle uuid vehicleId body
    (db : gmap string (gmap string value)) :
  db !! vehicleId = None →
  post_condition uuid vehicleId body db
  = (Response 404 {[ "error" := VStr "Vehicle not found" ]}, db).
Proof. intros H. unfold post_condition, Firestore.get. by rewrite H. Qed.

Lemma post_condition_unknown_vehicle_witness :
  garage !! "v9" = None ∧
  post_condition "u-1" "v9" dent garage
  = (Response 404 {[ "error" := VStr "Vehicle not found" ]}, garage).
Proof.
  split; [reflexivity|].
  apply (post_condition_unknown_vehicle "u-1" "v9" dent garage). reflexivity.
Defined.

(** C2, as the code has it. For an existing document whose [conditions] is
    a sequence (or missing), two additions in a row, whatever their bodies
    and whatever identifiers are generated, both answer 201 and leave the
    two records at the end of the sequence in the order of the requests.
    The record of a body that is an object has the properties of the body
    and, under [id], the [id] of the body when it has one and the generated
    identifier otherwise.  Two records made from objects without an [id]
    have distinct ids when the two generated identifiers are distinct. *)
Theorem post_condition_twice (db : gmap string (gmap string value))
    vehicleId data l uuid1 uuid2 body1 body2 :
  db !! vehicleId = Some data →
  conditions_of data = Some l →
  ∃ c1 c2 db1 db2 data2,
    post_condition uuid1 vehicleId body1 db = (Response 201 c1, db1) ∧
    post_condition uuid2 vehicleId body2 db1 = (Response 201 c2, db2) ∧
    db2 !! vehicleId = Some data2 ∧
    data2 !! "conditions" = Some (VArr (l ++ [VObj c1; VObj c2])) ∧
    (∀ m, body1 = VObj m →
       c1 !! "id" = Some (default (VStr uuid1) (m !! "id")) ∧
       ∀ k, k ≠ "id" → c1 !! k = m !! k) ∧
    (∀ m, body2 = VObj m →
       c2 !! "id" = Some (default (VStr uuid2) (m !! "id")) ∧
       ∀ k, k ≠ "id" → c2 !! k = m !! k) ∧
    (∀ m1 m2, body1 = VObj m1 → body2 = VObj m2 →
       m1 !! "id" = None → m2 !! "id" = None → uuid1 ≠ uuid2 →
       c1 !! "id" ≠ c2 !! "id").
Proof.
  intros Hdoc Hl.
  eexists _, _, _, _, _. split; [by apply post_condition_found|].
  split.
  { eapply post_condition_found; [apply lookup_insert_eq|].
    apply conditions_of_insert. }
  split; [apply lookup_insert_eq|].
  split; [by rewrite lookup_insert_eq, <-app_assoc|].
  split; [|split].
  - intros m ->. split; [apply conditionData_object_id|].
    intros k. apply conditionData_object_other.
  - intros m ->. split; [apply conditionData_object_id|].
    intros k. apply conditionData_object_other.
  - intros m1 m2 -> -> Hid1 Hid2 Hne.
    rewrite !conditionData_object_id, Hid1, Hid2. simpl. congruence.
Qed.

Lemma post_condition_twice_witness :
  garage !! "v1" = Some fiat ∧
  conditions_of fiat = Some [VObj {[ "id" := VStr "c0" ]}] ∧
  ∃ c1 c2 db1 db2 data2,
    post_condition "u-1" "v1" dent garage = (Response 201 c1, db1) ∧
    post_condition "u-2" "v1" scratch db1 = (Response 201 c2, db2) ∧
    db2 !! "v1" = Some data2 ∧
    data2 !! "conditions"
    = Some (VArr ([VObj {[ "id" := VStr "c0" ]}] ++ [VObj c1; VObj c2])) ∧
    (∀ m, dent = VObj m →
       c1 !! "id" = Some (default (VStr "u-1") (m !! "id")) ∧
       ∀ k, k ≠ "id" → c1 !! k = m !! k) ∧
    (∀ m, scratch = VObj m →
       c2 !! "id" = Some (default (VStr "u-2") (m !! "id")) ∧
       ∀ k, k ≠ "id" → c2 !! k = m !! k) ∧
    (∀ m1 m2, dent = VObj m1 → scratch = VObj m2 →
       m1 !! "id" = None → m2 !! "id" = None → "u-1" ≠ "u-2" →
       c1 !! "id" ≠ c2 !! "id").
Proof.
  do 2 (split; [reflexivity|]).
  apply (post_condition_twice garage "v1" fiat
           [VObj {[ "id" := VStr "c0" ]}] "u-1" "u-2" dent scratch);
    reflexivity.
Defined.

(** Two bodies without an [id], then a body that brings one. *)
Example post_condition_twice_dent_rust :
  let db1 := (post_condition "u-1" "v1" dent garage).2 in
  let db2 := (post_condition "u-2" "v1" rust db1).2 in
  let db3 := (post_condition "u-3" "v1" scratch db2).2 in
  Firestore.field db3 "v1" "conditions"
  = Some (VArr [VObj {[ "id" := VStr "c0" ]};
                VObj {[ "id" := VStr "u-1"; "note" := VStr "dent" ]};
                VObj {[ "id" := VStr "u-2"; "note" := VStr "rust" ]};
                scratch]).
Proof. vm_compute. reflexivity. Qed.

(** C2, as stated, fails: two bodies that bring the same [id] are stored as
    two records under that one [id], whatever identifiers were generated. *)
Lemma post_condition_twice_same_id :
  let body := VObj {[ "id" := VStr "x"; "note" := VStr "dent" ]} in
  let db1 := (post_condition "u-1" "v2" body garage).2 in
  let db2 := (post_condition "u-2" "v2" body db1).2 in
  Firestore.field db2 "v2" "conditions" = Some (VArr [body; body]).
Proof. vm_compute. reflexivity. Qed.

(** C9. When the body of a request has an [id] of its own, the record that
    an accepted addition answers with and stores carries that value, and not
    the generated one. *)
Theorem post_condition_caller_id (db : gmap string (gmap string value))
    vehicleId uuid body v resp db' :
  post_condition uuid vehicleId body db = (resp, db') →
  status resp = 201%N →
  spread body !! "id" = Some v →
  json resp !! "id" = Some v ∧
  (v ≠ VStr uuid → json resp !! "id" ≠ Some (VStr uuid)) ∧
  ∃ l, Firestore.field db' vehicleId "conditions"
       = Some (VArr (l ++ [VObj (json resp)])).
Proof.
  intros Hpost Hstatus Hid.
  destruct (post_condition_created _ _ _ _ _ _ Hpost Hstatus)
    as (data & l & Hdoc & Hl).
  rewrite (post_condition_found _ _ _ _ _ _ Hdoc Hl) in Hpost.
  injection Hpost as <- <-. simpl.
  rewrite (conditionData_body _ _ _ _ Hid).
  split; [done|]. split; [congruence|]. exists l.
  unfold Firestore.field. rewrite lookup_insert_eq. simpl.
  apply lookup_insert_eq.
Qed.

Lemma post_condition_caller_id_witness :
  let body := VObj {[ "id" := VStr "mine" ]} in
  let resp := (post_condition "u-1" "v2" body garage).1 in
  let db' := (post_condition "u-1" "v2" body garage).2 in
  status resp = 201%N ∧
  spread body !! "id" = Some (VStr "mine") ∧
  json resp !! "id" = Some (VStr "mine") ∧
  (VStr "mine" ≠ VStr "u-1" → json resp !! "id" ≠ Some (VStr "u-1")) ∧
  ∃ l, Firestore.field db' "v2" "conditions"
       = Some (VArr (l ++ [VObj (json resp)])).
Proof.
  intros body resp db'. do 2 (split; [reflexivity|]).
  apply (post_condition_caller_id garage "v2" "u-1" body (VStr "mine")
           resp db'); [apply surjective_pairing | reflexivity | reflexivity].
Defined.

(** ** Deleting a condition *)

(** C3, as the code has it. On an existing document whose [conditions] is a
    sequence without [null] elements (or missing), the deletion answers 200 and writes back the records whose
    [id] is not [conditionId], in their order: when one record bears the
    identifier and no other does, exactly that record goes and the records
    before and after it stay as they were; when no record bears it the
    sequence is the same and the answer is still 200. *)
Theorem delete_condition_by_id (db : gmap string (gmap string value))
    vehicleId conditionId data l :
  db !! vehicleId = Some data →
  conditions_of data = Some l →
  VNull ∉ l →
  ∃ l',
    delete_condition vehicleId conditionId db
    = (Response 200 {[ "message" := VStr "Condition deleted successfully" ]},
       <[vehicleId := <[ "conditions" := VArr l' ]> data]> db) ∧
    l' = List.filter (keeps conditionId) l ∧
    (∀ c, keeps conditionId c = false ↔ has_id conditionId c) ∧
    (∀ c, c ∈ l' ↔ c ∈ l ∧ ¬ has_id conditionId c) ∧
    (∀ before c after,
       l = before ++ c :: after →
       has_id conditionId c →
       (∀ c', c' ∈ before ++ after → ¬ has_id conditionId c') →
       l' = before ++ after) ∧
    ((∀ c, c ∈ l → ¬ has_id conditionId c) → l' = l).
Proof.
  intros Hdoc Hl Hnull. eexists.
  split; [by apply delete_condition_found|].
  split; [done|]. split; [apply keeps_false|]. split; [|split].
  - intros c. rewrite list_elem_of_In, filter_In, <-list_elem_of_In.
    by rewrite keeps_true.
  - intros before c after -> Hc Hothers.
    rewrite List.filter_app. simpl.
    apply keeps_false in Hc as ->.
    rewrite <-List.filter_app. by apply filter_keeps_all.
  - apply filter_keeps_all.
Qed.

Lemma delete_condition_by_id_witness :
  yard !! "v3" = Some volvo ∧
  conditions_of volvo = Some [scratch; chip; leak] ∧
  (VNull ∉ [scratch; chip; leak]) ∧
  ∃ l',
    delete_condition "v3" "b" yard
    = (Response 200 {[ "message" := VStr "Condition deleted successfully" ]},
       <["v3" := <[ "conditions" := VArr l' ]> volvo]> yard) ∧
    l' = List.filter (keeps "b") [scratch; chip; leak] ∧
    (∀ c, keeps "b" c = false ↔ has_id "b" c) ∧
    (∀ c, c ∈ l' ↔ c ∈ [scratch; chip; leak] ∧ ¬ has_id "b" c) ∧
    (∀ before c after,
       [scratch; chip; leak] = before ++ c :: after →
       has_id "b" c →
       (∀ c', c' ∈ before ++ after → ¬ has_id "b" c') →
       l' = before ++ after) ∧
    ((∀ c, c ∈ [scratch; chip; leak] → ¬ has_id "b" c) →
     l' = [scratch; chip; leak]).
Proof.
  assert (VNull ∉ [scratch; chip; leak]) as Hnull.
  { intros H. apply list_elem_of_In in H. simpl in H.
    destruct H as [H|[H|[H|H]]]; [discriminate H ..| exact H]. }
  do 2 (split; [reflexivity|]). split; [exact Hnull|].
  apply (delete_condition_by_id yard "v3" "b" volvo [scratch; chip; leak]);
    [reflexivity | reflexivity | exact Hnull].
Defined.

(** C3, as stated, fails on a document whose [conditions] holds a [null]
    element: reading [id] of [null] throws, so the deletion answers 500 and
    writes nothing, whether a record bears the identifier (it stays) or
    none does (the answer is still not 200). *)
Lemma delete_condition_null_element :
  yard !! "v4" = Some lada ∧
  lada !! "conditions" = Some (VArr [VNull; chip]) ∧
  has_id "b" chip ∧
  status (delete_condition "v4" "b" yard).1 = 500%N ∧
  (delete_condition "v4" "b" yard).2 = yard ∧
  status (delete_condition "v4" "zz" yard).1 = 500%N ∧
  (delete_condition "v4" "zz" yard).2 = yard.
Proof.
  split; [reflexivity|]. split; [reflexivity|].
  split; [eexists; split; reflexivity|].
  repeat split; reflexivity.
Qed.

Example delete_condition_middle :
  let c i := VObj {[ "id" := VStr i; "note" := VStr "n" ]} in
  let db := {[ "v1" := {[ "conditions" := VArr [c "a"; c "b"; c "c"] ]} ]} in
  Firestore.field (delete_condition "v1" "b" db).2 "v1" "conditions"
  = Some (VArr [c "a"; c "c"]).
Proof. vm_compute. reflexivity. Qed.

(** Records that share an identifier all go with it. *)
Example delete_condition_shared_id :
  let c i n := VObj {[ "id" := VStr i; "note" := VStr n ]} in
  let db := {[ "v1" := {[ "conditions" :=
                VArr [c "a" "one"; c "b" "two"; c "a" "three"] ]} ]} in
  Firestore.field (delete_condition "v1" "a" db).2 "v1" "conditions"
  = Some (VArr [c "b" "two"]).
Proof. vm_compute. reflexivity. Qed.

(** ** Reading a vehicle *)

(** C5. For an existing document without a [conditions] field the read
    answers 200 with one object that holds [conditions] as the empty
    sequence, every field of the document under its own name, and
    [vehicleId] (the path parameter, unless the document has a field of that
    name), and nothing else. *)
Theorem get_vehicle_without_conditions (db : gmap string (gmap string value))
    vehicleId data :
  db !! vehicleId = Some data →
  data !! "conditions" = None →
  ∃ out,
    get_vehicle vehicleId db = Response 200 out ∧
    out !! "conditions" = Some (VArr []) ∧
    (∀ k v, data !! k = Some v → out !! k = Some v) ∧
    out !! "vehicleId" = Some (default (VStr vehicleId) (data !! "vehicleId")) ∧
    dom out = dom data ∪ {[ "vehicleId"; "conditions" ]}.
Proof.
  intros Hdoc Hnone. unfold get_vehicle, Firestore.get.
  rewrite Hdoc, Hnone. simpl. eexists. split; [done|].
  split; [apply lookup_insert_eq|]. split; [|split].
  - intros k v Hk. rewrite lookup_insert_ne by congruence.
    by apply lookup_union_Some_l.
  - rewrite lookup_insert_ne by done. rewrite lookup_union.
    rewrite lookup_singleton_eq. by destruct (data !! "vehicleId").
  - rewrite dom_insert_L, dom_union_L, dom_singleton_L.
    apply set_eq. intros x.
    rewrite !elem_of_union, !elem_of_singleton. tauto.
Qed.

Lemma get_vehicle_without_conditions_witness :
  garage !! "v2" = Some {[ "make" := VStr "Saab" ]} ∧
  ({[ "make" := VStr "Saab" ]} : gmap string value) !! "conditions" = None ∧
  ∃ out,
    get_vehicle "v2" garage = Response 200 out ∧
    out !! "conditions" = Some (VArr []) ∧
    (∀ k v, ({[ "make" := VStr "Saab" ]} : gmap string value) !! k = Some v →
            out !! k = Some v) ∧
    out !! "vehicleId"
    = Some (default (VStr "v2")
              (({[ "make" := VStr "Saab" ]} : gmap string value) !! "vehicleId")) ∧
    dom out
    = dom ({[ "make" := VStr "Saab" ]} : gmap string value)
      ∪ {[ "vehicleId"; "conditions" ]}.
Proof.
  do 2 (split; [reflexivity|]).
  apply (get_vehicle_without_conditions garage "v2" {[ "make" := VStr "Saab" ]});
    reflexivity.
Defined.

(** ** Frame *)

(** C10. An addition or a deletion, whatever it answers, changes no field
    other than [conditions] of the addressed document: every other field of
    that document and every field of every other document reads as before,
    and no document appears or disappears. *)
Theorem condition_routes_frame (db : gmap string (gmap string value))
    uuid vehicleId body conditionId vehicleId' k :
  vehicleId' ≠ vehicleId ∨ k ≠ "conditions" →
  let added := (post_condition uuid vehicleId body db).2 in
  let deleted := (delete_condition vehicleId conditionId db).2 in
  Firestore.field added vehicleId' k = Firestore.field db vehicleId' k ∧
  Firestore.field deleted vehicleId' k = Firestore.field db vehicleId' k ∧
  dom added = dom db ∧
  dom deleted = dom db.
Proof.
  intros Hne added deleted.
  pose proof (post_condition_touches uuid vehicleId body db) as Ha.
  pose proof (delete_condition_touches vehicleId conditionId db) as Hd.
  repeat split.
  - by apply (touches_conditions_field vehicleId).
  - by apply (touches_conditions_field vehicleId).
  - by apply (touches_conditions_dom vehicleId).
  - by apply (touches_conditions_dom vehicleId).
Qed.

Lemma condition_routes_frame_witness :
  ("v1" ≠ "v1" ∨ "make" ≠ "conditions") ∧
  let added := (post_condition "u-1" "v1" dent garage).2 in
  let deleted := (delete_condition "v1" "c0" garage).2 in
  Firestore.field added "v1" "make" = Firestore.field garage "v1" "make" ∧
  Firestore.field deleted "v1" "make" = Firestore.field garage "v1" "make" ∧
  dom added = dom garage ∧
  dom deleted = dom garage.
Proof.
  split; [right; discriminate|].
  apply (condition_routes_frame garage "u-1" "v1" dent "c0" "v1" "make").
  right. discriminate.
Defined.

(** ** Strings and separators *)

Lemma append_cons c s t : String c s +:+ t = String c (s +:+ t).
Proof. reflexivity. Qed.

Lemma append_empty_l s : "" +:+ s = s.
Proof. reflexivity. Qed.

Lemma append_empty_r s : s +:+ "" = s.
Proof. induction s as [|c s IH]; [done|]. by rewrite append_cons, IH. Qed.

Lemma append_assoc s1 s2 s3 : (s1 +:+ s2) +:+ s3 = s1 +:+ (s2 +:+ s3).
Proof.
  induction s1 as [|c s1 IH]; [done|]. by rewrite !append_cons, IH.
Qed.

Lemma split_cons s : ∃ h t, Path.split s = h :: t.
Proof.
  induction s as [|c s (h & t & IH)]; simpl; [by eauto|].
  destruct (Ascii.eqb c "/"); [by eauto|]. rewrite IH. eauto.
Qed.

Lemma split_append a b :
  Path.split (a +:+ "/" +:+ b) = Path.split a ++ Path.split b.
Proof.
  induction a as [|c a IH]; [done|].
  rewrite append_cons. simpl.
  destruct (Ascii.eqb c "/"); [by rewrite IH|].
  rewrite IH. by destruct (split_cons a) as (h & t & ->).
Qed.

Lemma split_append_name a b h t :
  no_separator a → Path.split b = h :: t →
  Path.split (a +:+ b) = (a +:+ h) :: t.
Proof.
  unfold no_separator. revert h t.
  induction a as [|c a IH]; intros h t Ha Hb; [done|].
  rewrite !append_cons. simpl in *.
  destruct (Ascii.eqb c "/"); [discriminate Ha|].
  destruct (split_cons a) as (h' & t' & Ha').
  rewrite Ha' in Ha. injection Ha as -> ->.
  by rewrite (IH h t Ha' Hb).
Qed.

Lemma concat_cons x h t :
  String.concat "/" (x :: h :: t) = x +:+ "/" +:+ String.concat "/" (h :: t).
Proof. reflexivity. Qed.

Lemma concat_split s : String.concat "/" (Path.split s) = s.
Proof.
  induction s as [|c s IH]; [done|]. simpl.
  destruct (split_cons s) as (h & t & Hs). rewrite Hs in *.
  destruct (Ascii.eqb_spec c "/") as [->|Hc].
  - by rewrite concat_cons, IH.
  - destruct t as [|y t]; [simpl in *; by rewrite IH|].
    rewrite concat_cons, append_cons. rewrite concat_cons in IH.
    by rewrite IH.
Qed.

Lemma concat_app l1 l2 :
  l1 ≠ [] → l2 ≠ [] →
  String.concat "/" (l1 ++ l2)
  = String.concat "/" l1 +:+ "/" +:+ String.concat "/" l2.
Proof.
  intros H1 H2. induction l1 as [|x l1 IH]; [done|].
  destruct l1 as [|y l1].
  - destruct l2; [done|]. apply concat_cons.
  - change ((x :: y :: l1) ++ l2) with (x :: y :: (l1 ++ l2)).
    rewrite !concat_cons.
    change (y :: l1 ++ l2) with ((y :: l1) ++ l2).
    rewrite IH by done. by rewrite !append_assoc.
Qed.

Lemma split_nonempty s : Path.split s ≠ [].
Proof. by destruct (split_cons s) as (h & t & ->). Qed.

(** ** Normalization of clean paths *)

Lemma step_kept allow res seg :
  kept seg = true → Path.step allow res seg = seg :: res.
Proof.
  unfold kept, Path.step. rewrite negb_true_iff, !orb_false_iff.
  by intros [[-> ->] ->].
Qed.

Lemma fold_step_kept allow segs res :
  forallb kept segs = true →
  fold_left (Path.step allow) segs res = rev segs ++ res.
Proof.
  revert res. induction segs as [|seg segs IH]; intros res; simpl; [done|].
  rewrite andb_true_iff. intros [Hseg Hsegs].
  rewrite step_kept, IH by done. by rewrite <-app_assoc.
Qed.

Lemma ends_with_slash_split s :
  Path.ends_with_slash s = true →
  ∃ l, Path.split s = l ++ [""] ∧ l ≠ [].
Proof.
  induction s as [|c s IH]; [done|].
  destruct s as [|c' s].
  - simpl. intros ->. by exists [""].
  - intros H. change (Path.ends_with_slash (String c' s) = true) in H.
    destruct (IH H) as (l & Hl & Hne).
    change (Path.split (String c (String c' s))) with
      (if Ascii.eqb c "/" then "" :: Path.split (String c' s)
       else match Path.split (String c' s) with
            | h :: t => String c h :: t
            | [] => [String c ""]
            end).
    rewrite Hl. destruct (Ascii.eqb c "/").
    + by exists ("" :: l).
    + destruct l as [|h t]; [done|]. by exists (String c h :: t).
Qed.

Lemma clean_no_trailing_slash s :
  clean s = true → Path.ends_with_slash s = false.
Proof.
  unfold clean. intros H.
  destruct (Path.ends_with_slash s) eqn:E; [|done].
  destruct (ends_with_slash_split s E) as (l & Hl & _).
  rewrite Hl, forallb_app in H. simpl in H.
  by rewrite andb_false_r in H.
Qed.

Lemma clean_nonempty s : clean s = true → s ≠ "".
Proof. by intros H ->. Qed.

Lemma ends_with_slash_append a b :
  b ≠ "" → Path.ends_with_slash (a +:+ b) = Path.ends_with_slash b.
Proof.
  intros Hb. induction a as [|c a IH]; [done|].
  rewrite append_cons. simpl. rewrite IH.
  destruct (a +:+ b) eqn:E; [|done].
  destruct a; [|done]. by rewrite append_empty_l in E.
Qed.

Lemma clean_append a b : clean (a +:+ "/" +:+ b) = clean a && clean b.
Proof. unfold clean. by rewrite split_append, forallb_app. Qed.

Lemma normalize_clean s :
  clean s = true → Path.normalize ("/" +:+ s) = "/" +:+ s.
Proof.
  intros Hs. pose proof (clean_nonempty s Hs) as Hne.
  change ("/" +:+ s) with (String "/" s) at 1.
  unfold Path.normalize.
  change (Path.split (String "/" s)) with ("" :: Path.split s).
  change (String "/" s) with ("/" +:+ s).
  rewrite ends_with_slash_append, (clean_no_trailing_slash s Hs) by done.
  unfold Path.normalizeString. simpl fold_left.
  rewrite fold_step_kept by done.
  rewrite app_nil_r, rev_involutive, concat_split.
  destruct s; [done|]. by rewrite append_empty_r.
Qed.

Lemma join_documents_clean vehicleId type fileName :
  clean vehicleId = true → clean type = true → clean fileName = true →
  Path.join ["/documents"; vehicleId; type; fileName]
  = "/documents/" +:+ vehicleId +:+ "/" +:+ type +:+ "/" +:+ fileName.
Proof.
  intros Hv Ht Hf. unfold Path.join. simpl List.filter.
  pose proof (proj2 (String.eqb_neq _ _) (clean_nonempty _ Hv)) as ->.
  pose proof (proj2 (String.eqb_neq _ _) (clean_nonempty _ Ht)) as ->.
  pose proof (proj2 (String.eqb_neq _ _) (clean_nonempty _ Hf)) as ->.
  simpl negb. cbv iota.
  rewrite !concat_cons.
  change (String.concat "/" [fileName]) with fileName.
  change ("/documents" +:+ "/" +:+ ?r) with ("/" +:+ "documents" +:+ "/" +:+ r).
  change ("/documents/" +:+ ?r) with ("/" +:+ "documents" +:+ "/" +:+ r).
  apply normalize_clean. rewrite !clean_append, Hv, Ht, Hf. done.
Qed.

(** ** The generated file name *)

Lemma all_chars_no_separator s :
  all_chars (λ c, negb (Ascii.eqb c "/")) s = true → no_separator s.
Proof.
  unfold no_separator. induction s as [|c s IH]; [done|]. simpl.
  rewrite andb_true_iff, negb_true_iff. intros [-> Hs].
  by rewrite (IH Hs).
Qed.

Lemma all_chars_impl (P Q : ascii → bool) s :
  (∀ c, P c = true → Q c = true) →
  all_chars P s = true → all_chars Q s = true.
Proof.
  intros HPQ. induction s as [|c s IH]; [done|]. simpl.
  rewrite !andb_true_iff. intros [Hc Hs]. auto.
Qed.

Lemma is_digit_pretty_N_char x : is_digit (pretty_N_char x) = true.
Proof. unfold pretty_N_char. by repeat case_match. Qed.

Lemma pretty_N_go_digits x s :
  all_chars is_digit s = true →
  all_chars is_digit (pretty_N_go x s) = true.
Proof.
  revert s. induction (N.lt_wf_0 x) as [x _ IH]; intros s Hs.
  destruct (decide (x = 0)%N) as [->|Hx]; [by rewrite pretty_N_go_0|].
  rewrite pretty_N_go_step by lia. apply IH.
  - apply N.div_lt; lia.
  - simpl. by rewrite is_digit_pretty_N_char.
Qed.

Lemma pretty_N_go_nonempty x s : s ≠ "" → pretty_N_go x s ≠ "".
Proof.
  revert s. induction (N.lt_wf_0 x) as [x _ IH]; intros s Hs.
  destruct (decide (x = 0)%N) as [->|Hx]; [by rewrite pretty_N_go_0|].
  rewrite pretty_N_go_step by lia. apply IH; [apply N.div_lt; lia|done].
Qed.

(** [Date.now()] prints as a non-empty run of decimal digits. *)
Lemma timestamp_digits (now : N) :
  all_chars is_digit (pretty now) = true ∧ pretty now ≠ "".
Proof.
  unfold pretty, pretty_N. case_decide as Hx; [done|]. split.
  - by apply pretty_N_go_digits.
  - rewrite pretty_N_go_step by lia. by apply pretty_N_go_nonempty.
Qed.

Lemma is_digit_not_separator c :
  is_digit c = true → negb (Ascii.eqb c "/") = true.
Proof.
  unfold is_digit. destruct (Ascii.eqb_spec c "/") as [->|]; [done|done].
Qed.

Lemma is_digit_not_dot c s : is_digit c = true → kept (String c s) = true.
Proof.
  unfold is_digit, kept. intros Hc.
  destruct (Ascii.eqb_spec c ".") as [->|Hdot]; [done|].
  assert (String.eqb (String c s) "." = false) as ->.
  { apply String.eqb_neq. congruence. }
  assert (String.eqb (String c s) ".." = false) as ->.
  { apply String.eqb_neq. congruence. }
  done.
Qed.

Lemma clean_storage_filename now originalname :
  no_separator originalname →
  clean (storage_filename now originalname) = true.
Proof.
  intros Hname. unfold storage_filename, clean.
  destruct (timestamp_digits now) as [Hdigits Hne].
  assert (no_separator (pretty now)) as Hts.
  { apply all_chars_no_separator.
    eapply all_chars_impl; [apply is_digit_not_separator|done]. }
  assert (Path.split ("-" +:+ originalname) = ["-" +:+ originalname]) as Hrest.
  { change ("-" +:+ originalname) with (String "-" originalname).
    simpl. by rewrite Hname. }
  rewrite (split_append_name _ _ _ _ Hts Hrest). simpl.
  rewrite andb_true_r.
  destruct (pretty now) as [|c r] eqn:E; [done|].
  rewrite append_cons. apply is_digit_not_dot.
  simpl in Hdigits. by apply andb_true_iff in Hdigits as [? _].
Qed.

(** ** The multipart body *)

Section process_facts.

Context (getDestination :
           gmap string field_value → string → Fs.t → js_error + string * Fs.t).
Context (getFilename : string → string).
Context (limit : N) (fieldName : string).

Local Abbreviation process := (Multer.process getDestination getFilename limit fieldName).
Local Abbreviation handleFile := (Multer.handleFile getDestination getFilename limit fieldName).

Lemma process_quiet pre rest body uploaded d :
  forallb quiet pre = true →
  process (pre ++ rest) body uploaded d
  = process rest (body_after pre body) uploaded d.
Proof.
  revert body. induction pre as [|p pre IH]; intros body; [done|].
  simpl. rewrite andb_true_iff. intros [Hp Hpre].
  destruct p as [name value|fieldname originalname content]; simpl in *.
  - by apply IH.
  - rewrite Hp. by apply IH.
Qed.

Lemma process_file pre originalname content rest d :
  forallb quiet pre = true →
  originalname ≠ "" →
  process (pre ++ File fieldName originalname content :: rest) ∅ None d
  = match handleFile (body_after pre ∅) originalname content d with
    | inl (e, d) => inl (e, d)
    | inr (f, d) => process rest (body_after pre ∅) (Some f) d
    end.
Proof.
  intros Hpre Hname. rewrite process_quiet by done. simpl.
  apply String.eqb_neq in Hname as ->.
  rewrite String.eqb_refl. simpl.
  by destruct (handleFile _ _ _ _) as [[e d']|[f d']].
Qed.

Lemma process_body parts body uploaded d body' uploaded' d' :
  process parts body uploaded d = inr (body', uploaded', d') →
  body' = body_after parts body.
Proof.
  revert body uploaded d.
  induction parts as [|p parts IH]; intros body uploaded d; simpl.
  - by intros [= <- _ _].
  - destruct p as [name value|fieldname originalname content]; [by apply IH|].
    destruct (String.eqb originalname ""); [by apply IH|].
    destruct (_ || _); [done|].
    destruct (handleFile _ _ _ _) as [[e d1]|[f d1]]; [done|]. by apply IH.
Qed.

Lemma process_keeps_file parts body f0 d body' f d' :
  process parts body (Some f0) d = inr (body', Some f, d') → f = f0.
Proof.
  revert body d. induction parts as [|p parts IH]; intros body d; simpl.
  - by intros [= _ -> _].
  - destruct p as [name value|fieldname originalname content];
      [by apply IH|].
    destruct (String.eqb originalname ""); [by apply IH|].
    by rewrite orb_true_r.
Qed.

Lemma process_uploaded parts body d body' f d' :
  process parts body None d = inr (body', Some f, d') →
  ∃ originalname content,
    File fieldName originalname content ∈ parts ∧
    originalname ≠ "" ∧
    filename f = getFilename originalname.
Proof.
  revert body d.
  induction parts as [|p parts IH]; intros body d; simpl; [done|].
  destruct p as [name value|fieldname originalname content].
  - intros H. destruct (IH _ _ H) as (o & c & ? & ? & ?).
    exists o, c. split; [by right|done].
  - destruct (String.eqb_spec originalname "") as [->|Hname].
    { intros H. destruct (IH _ _ H) as (o & c & ? & ? & ?).
      exists o, c. split; [by right|done]. }
    destruct (String.eqb_spec fieldname fieldName) as [->|]; [|done].
    simpl. unfold Multer.handleFile.
    destruct (getDestination _ _ _) as [e|[dir d1]]; [done|].
    destruct (Fs.open_w _ _); [done|].
    destruct (_ <=? _)%N; [done|].
    intros H. apply process_keeps_file in H as ->.
    exists originalname, content. split; [left|done].
Qed.

End process_facts.

Lemma append_field_text name value body n v :
  append_field name value body !! n = Some (Text v) →
  body !! n = Some (Text v) ∨ (name = n ∧ value = v).
Proof.
  unfold append_field. destruct (decide (name = n)) as [->|Hne].
  - destruct (body !! n) as [[s|l]|]; rewrite lookup_insert_eq;
      naive_solver.
  - destruct (body !! name) as [[s|l]|]; rewrite lookup_insert_ne by done;
      auto.
Qed.

Lemma body_after_text parts body n v :
  body_after parts body !! n = Some (Text v) →
  body !! n = Some (Text v) ∨ Field n v ∈ parts.
Proof.
  revert body. induction parts as [|p parts IH]; intros body; simpl; [auto|].
  destruct p as [name value|fieldname originalname content].
  - intros H. destruct (IH _ H) as [H'|H']; [|right; by right].
    destruct (append_field_text _ _ _ _ _ H') as [?|[-> ->]]; [auto|].
    right. left.
  - intros H. destruct (IH _ H) as [?|?]; [auto|right; by right].
Qed.

(** ** The upload route *)

Lemma upload_file dirname now pre originalname content rest d :
  forallb quiet pre = true →
  originalname ≠ "" →
  upload dirname now (pre ++ File "file" originalname content :: rest) d
  = match Multer.handleFile (storage_destination dirname)
            (storage_filename now) fileSize "file"
            (body_after pre ∅) originalname content d with
    | inl (e, d) => inl (e, d)
    | inr (f, d) =>
        Multer.process (storage_destination dirname) (storage_filename now)
          fileSize "file" rest (body_after pre ∅) (Some f) d
    end.
Proof. intros. unfold upload, Multer.single. by apply process_file. Qed.

Lemma post_upload_failure dirname now parts d err d' :
  upload dirname now parts d = inl (err, d') →
  post_upload dirname now parts d = (upload_failure err, d').
Proof.
  intros H. unfold post_upload, upload_failure. rewrite H.
  by destruct (is_multer_error err).
Qed.

Lemma post_upload_destination_error dirname now pre originalname content rest
    d err :
  forallb quiet pre = true →
  originalname ≠ "" →
  storage_destination dirname (body_after pre ∅) originalname d = inl err →
  post_upload dirname now (pre ++ File "file" originalname content :: rest) d
  = (upload_failure err, d).
Proof.
  intros Hpre Hname Hdest. apply post_upload_failure.
  rewrite upload_file by done. unfold Multer.handleFile. by rewrite Hdest.
Qed.

Lemma storage_destination_missing dirname body originalname d :
  field_truthy (body !! "vehicleId") = false
  ∨ field_truthy (body !! "type") = false →
  storage_destination dirname body originalname d
  = inl (Error "Missing vehicleId or type").
Proof.
  intros H. unfold storage_destination.
  assert (negb (field_truthy (body !! "vehicleId"))
          || negb (field_truthy (body !! "type")) = true) as ->; [|done].
  rewrite orb_true_iff, !negb_true_iff. done.
Qed.

Lemma storage_destination_inr dirname body originalname d dir d1 :
  storage_destination dirname body originalname d = inr (dir, d1) →
  field_truthy (body !! "vehicleId") = true ∧
  field_truthy (body !! "type") = true ∧
  Fs.files d1 = Fs.files d.
Proof.
  unfold storage_destination.
  destruct (field_truthy (body !! "vehicleId")); [|done].
  destruct (field_truthy (body !! "type")); [|done]. simpl.
  destruct (body !! "vehicleId") as [[v|?]|]; try done.
  destruct (body !! "type") as [[t|?]|]; try done.
  unfold Fs.mkdirSync.
  destruct (Fs.is_file _ _); [done|]. destruct (existsb _ _); [done|].
  by intros [= _ <-].
Qed.

Lemma append_field_truthy name value body n :
  field_truthy (body !! n) = true →
  field_truthy (append_field name value body !! n) = true.
Proof.
  intros H. unfold append_field. destruct (decide (name = n)) as [->|Hne].
  - destruct (body !! n) as [[s|l]|]; by rewrite lookup_insert_eq.
  - by destruct (body !! name) as [[s|l]|]; rewrite lookup_insert_ne.
Qed.

Lemma body_after_truthy parts body n :
  field_truthy (body !! n) = true →
  field_truthy (body_after parts body !! n) = true.
Proof.
  revert body. induction parts as [|p parts IH]; intros body H; [done|].
  destruct p; simpl; auto using append_field_truthy.
Qed.

Lemma upload_fields_present dirname now parts d body f d' :
  upload dirname now parts d = inr (body, Some f, d') →
  field_truthy (body !! "vehicleId") = true ∧
  field_truthy (body !! "type") = true.
Proof.
  unfold upload, Multer.single. generalize (∅ : gmap string field_value).
  revert d. induction parts as [|p parts IH]; intros d body0; simpl; [done|].
  destruct p as [name value|fieldname originalname content]; [by apply IH|].
  destruct (String.eqb originalname ""); [by apply IH|].
  destruct (negb _ || _); [done|].
  unfold Multer.handleFile.
  destruct (storage_destination _ _ _ _) as [e|[dir d1]] eqn:Hdest; [done|].
  destruct (Fs.open_w _ _); [done|]. destruct (_ <=? _)%N; [done|].
  intros H. apply process_body in H as ->.
  apply storage_destination_inr in Hdest as (? & ? & _).
  split; by apply body_after_truthy.
Qed.

(** The answer 400 [Missing required fields] of the handler is never
    given: a request that has stored its file has both fields. *)
Lemma post_upload_never_missing_fields dirname now parts d :
  json (post_upload dirname now parts d).1 !! "message"
  ≠ Some (VStr "Missing required fields").
Proof.
  unfold post_upload.
  destruct (upload dirname now parts d) as [[e d']|[[body [f|]] d']] eqn:E.
  - by destruct (is_multer_error e).
  - destruct (upload_fields_present _ _ _ _ _ _ _ E) as [-> ->]. simpl.
    by destruct (body !! "vehicleId") as [[]|], (body !! "type") as [[]|].
  - done.
Qed.

Lemma append_field_other name value (body : gmap string field_value) n :
  name ≠ n → append_field name value body !! n = body !! n.
Proof.
  intros Hne. unfold append_field.
  by destruct (body !! name) as [[s|l]|]; rewrite lookup_insert_ne.
Qed.

Lemma process_without_field dirname now n parts
    (body : gmap string field_value) d :
  n = "vehicleId" ∨ n = "type" →
  (∀ v, Field n v ∉ parts) →
  body !! n = None →
  match Multer.process (storage_destination dirname) (storage_filename now)
          fileSize "file" parts body None d with
  | inl (_, d') => d' = d
  | inr (_, uploaded, d') => uploaded = None ∧ d' = d
  end.
Proof.
  intros Hn. revert body.
  induction parts as [|p parts IH]; intros body Hparts Hbody; simpl; [done|].
  assert (∀ v, Field n v ∉ parts) as Hrest.
  { intros v Hv. apply (Hparts v). by right. }
  destruct p as [name value|fieldname originalname content].
  - apply IH; [done|]. rewrite append_field_other; [done|].
    intros ->. apply (Hparts value). left.
  - destruct (String.eqb originalname ""); [by apply IH|].
    destruct (negb _ || _); [done|].
    unfold Multer.handleFile.
    rewrite storage_destination_missing; [done|].
    destruct Hn as [-> | ->]; rewrite Hbody; auto.
Qed.

(** The part of C1 that the code does keep: a request that has no text
    field [vehicleId], or none named [type], leaves the disk as it was, and
    is never answered 200. *)
Lemma post_upload_without_field dirname now n parts d :
  n = "vehicleId" ∨ n = "type" →
  (∀ v, Field n v ∉ parts) →
  (post_upload dirname now parts d).2 = d ∧
  status (post_upload dirname now parts d).1 ≠ 200%N.
Proof.
  intros Hn Hparts.
  pose proof (process_without_field dirname now n parts ∅ d Hn Hparts
                (lookup_empty n)) as H.
  unfold post_upload, upload, Multer.single.
  destruct (Multer.process _ _ _ _ _ _ _ _) as [[e d']|[[body u] d']].
  - subst d'. by destruct (is_multer_error e).
  - destruct H as [-> ->]. done.
Qed.

Lemma oversized_length : (fileSize < N.of_nat (length oversized))%N.
Proof. unfold oversized. rewrite repeat_length, N2Nat.id. lia. Qed.

(** C1, as the code has it. A request whose file part arrives while
    [vehicleId] or [type] is missing from the body (or empty) is refused by
    the destination callback with a plain [Error], which the route answers
    with 500 [Upload error]; the disk is left as it was. *)
Theorem upload_missing_field dirname now pre originalname content rest d :
  forallb quiet pre = true →
  originalname ≠ "" →
  field_truthy (body_after pre ∅ !! "vehicleId") = false
  ∨ field_truthy (body_after pre ∅ !! "type") = false →
  post_upload dirname now (pre ++ File "file" originalname content :: rest) d
  = (Response 500 {[ "message" := VStr "Upload error";
                     "error" := VStr "Missing vehicleId or type" ]}, d).
Proof.
  intros Hpre Hname Hmissing.
  rewrite (post_upload_destination_error _ _ _ _ _ _ _
             (Error "Missing vehicleId or type")); try done.
  by apply storage_destination_missing.
Qed.

Lemma upload_missing_field_witness :
  forallb quiet [Field "type" "insurance"] = true ∧
  "card.pdf" ≠ "" ∧
  (field_truthy (body_after [Field "type" "insurance"] ∅ !! "vehicleId") = false
   ∨ field_truthy (body_after [Field "type" "insurance"] ∅ !! "type") = false) ∧
  post_upload app_dir 1700000000000
    ([Field "type" "insurance"] ++ File "file" "card.pdf" card :: []) Fs.empty
  = (Response 500 {[ "message" := VStr "Upload error";
                     "error" := VStr "Missing vehicleId or type" ]}, Fs.empty).
Proof.
  split; [reflexivity|]. split; [discriminate|]. split; [left; reflexivity|].
  apply (upload_missing_field app_dir 1700000000000
           [Field "type" "insurance"] "card.pdf" card [] Fs.empty);
    [reflexivity | discriminate | left; reflexivity].
Defined.

(** C7, as the code has it. When the text fields that precede the file part
    let the destination callback make its directory and the file can be
    opened there, a file longer than [fileSize] fails the request with the
    [MulterError] [LIMIT_FILE_SIZE], answered 400 [File upload error]; no
    file is on the disk afterwards that was not there before; and an error
    that is no [MulterError] is answered 500, never 400. *)
Theorem upload_too_large dirname now pre originalname content rest d
    uploadPath d1 :
  forallb quiet pre = true →
  originalname ≠ "" →
  storage_destination dirname (body_after pre ∅) originalname d
  = inr (uploadPath, d1) →
  Fs.open_w (Path.join [uploadPath; storage_filename now originalname]) d1
  = None →
  (fileSize < N.of_nat (length content))%N →
  let parts := pre ++ File "file" originalname content :: rest in
  ∃ d',
    upload dirname now parts d = inl (MulterError "LIMIT_FILE_SIZE", d') ∧
    post_upload dirname now parts d
    = (Response 400 {[ "message" := VStr "File upload error";
                       "error" := VStr "File too large" ]}, d') ∧
    (∀ p c, Fs.files d' !! p = Some c → Fs.files d !! p = Some c) ∧
    (∀ parts0 d0 err d0',
       upload dirname now parts0 d0 = inl (err, d0') →
       is_multer_error err = false →
       status (post_upload dirname now parts0 d0).1 = 500%N).
Proof.
  intros Hpre Hname Hdest Hopen Hsize parts.
  assert (upload dirname now parts d
          = inl (MulterError "LIMIT_FILE_SIZE",
                 Fs.unlink (Path.join [uploadPath; storage_filename now originalname])
                   (Fs.write (Path.join [uploadPath; storage_filename now originalname])
                      (take (N.to_nat fileSize) content) d1))) as Hup.
  { unfold parts. rewrite upload_file by done. unfold Multer.handleFile.
    rewrite Hdest, Hopen.
    assert ((fileSize <=? N.of_nat (length content))%N = true) as ->
      by (apply N.leb_le; lia).
    done. }
  eexists. split; [exact Hup|]. split; [|split].
  - by rewrite (post_upload_failure _ _ _ _ _ _ Hup).
  - intros p c. simpl.
    apply storage_destination_inr in Hdest as (_ & _ & <-).
    intros H. apply lookup_delete_Some in H as [Hne H].
    by rewrite lookup_insert_ne in H.
  - intros parts0 d0 err d0' H Herr.
    rewrite (post_upload_failure _ _ _ _ _ _ H). unfold upload_failure.
    by rewrite Herr.
Qed.

Lemma upload_too_large_witness :
  let pre := [Field "vehicleId" "v1"; Field "type" "insurance"] in
  let parts := pre ++ File "file" "scan.pdf" oversized :: [] in
  forallb quiet pre = true ∧
  "scan.pdf" ≠ "" ∧
  storage_destination app_dir (body_after pre ∅) "scan.pdf" Fs.empty
  = inr ("/srv/app/public/documents/v1/insurance", insurance_dir) ∧
  Fs.open_w (Path.join ["/srv/app/public/documents/v1/insurance";
                        storage_filename 1700000000000 "scan.pdf"])
    insurance_dir = None ∧
  (fileSize < N.of_nat (length oversized))%N ∧
  ∃ d',
    upload app_dir 1700000000000 parts Fs.empty
    = inl (MulterError "LIMIT_FILE_SIZE", d') ∧
    post_upload app_dir 1700000000000 parts Fs.empty
    = (Response 400 {[ "message" := VStr "File upload error";
                       "error" := VStr "File too large" ]}, d') ∧
    (∀ p c, Fs.files d' !! p = Some c → Fs.files Fs.empty !! p = Some c) ∧
    (∀ parts0 d0 err d0',
       upload app_dir 1700000000000 parts0 d0 = inl (err, d0') →
       is_multer_error err = false →
       status (post_upload app_dir 1700000000000 parts0 d0).1 = 500%N).
Proof.
  intros pre parts.
  assert (storage_destination app_dir (body_after pre ∅) "scan.pdf" Fs.empty
          = inr ("/srv/app/public/documents/v1/insurance", insurance_dir))
    as Hdest by (vm_compute; reflexivity).
  assert (Fs.open_w (Path.join ["/srv/app/public/documents/v1/insurance";
                                storage_filename 1700000000000 "scan.pdf"])
            insurance_dir = None) as Hopen by (vm_compute; reflexivity).
  split; [reflexivity|]. split; [discriminate|].
  split; [exact Hdest|]. split; [exact Hopen|].
  split; [exact oversized_length|].
  apply (upload_too_large app_dir 1700000000000 pre "scan.pdf" oversized []
           Fs.empty "/srv/app/public/documents/v1/insurance" insurance_dir);
    [reflexivity | discriminate | exact Hdest | exact Hopen
    | exact oversized_length].
Defined.

(** C7, as stated, fails: a file over the limit sent for a [type] whose
    directory cannot be made (a stored file has that path) is answered 500
    [Upload error], the answer of a disk failure. *)
Lemma upload_too_large_disk_failure :
  (fileSize < N.of_nat (length oversized))%N ∧
  ∃ text,
    post_upload app_dir 1700000000001
      [Field "vehicleId" "v1";
       Field "type" "insurance/1700000000000-card.pdf";
       File "file" "scan.pdf" oversized] disk_with_card
    = (Response 500 {[ "message" := VStr "Upload error";
                       "error" := VStr text ]}, disk_with_card).
Proof.
  split; [exact oversized_length|].
  exists (message (SystemError "EEXIST" "mkdir"
            "/srv/app/public/documents/v1/insurance/1700000000000-card.pdf")).
  apply (post_upload_destination_error app_dir 1700000000001
           [Field "vehicleId" "v1";
            Field "type" "insurance/1700000000000-card.pdf"]
           "scan.pdf" oversized [] disk_with_card
           (SystemError "EEXIST" "mkdir"
              "/srv/app/public/documents/v1/insurance/1700000000000-card.pdf"));
    [reflexivity | discriminate | vm_compute; reflexivity].
Qed.

(** C6, as the code has it. A request answered 200 has a text field
    [vehicleId], a text field [type], both non-empty, and a file part
    [file] with a file name; the path answered is [path.join] of
    [/documents], the two fields and the timestamp, a dash and the file
    name, the timestamp being a run of decimal digits.  When the two fields
    are made of kept segments and the file name has no separator, that is
    the string [/documents/{vehicleId}/{type}/{timestamp}-{originalName}]. *)
Theorem upload_path dirname now parts d resp d' :
  post_upload dirname now parts d = (resp, d') →
  status resp = 200%N →
  ∃ vehicleId type originalName content,
    Field "vehicleId" vehicleId ∈ parts ∧
    Field "type" type ∈ parts ∧
    File "file" originalName content ∈ parts ∧
    vehicleId ≠ "" ∧ type ≠ "" ∧ originalName ≠ "" ∧
    all_chars is_digit (pretty now) = true ∧
    json resp !! "path"
    = Some (VStr (Path.join ["/documents"; vehicleId; type;
                             pretty now +:+ "-" +:+ originalName])) ∧
    (clean vehicleId = true → clean type = true → no_separator originalName →
     json resp !! "path"
     = Some (VStr ("/documents/" +:+ vehicleId +:+ "/" +:+ type +:+ "/"
                   +:+ pretty now +:+ "-" +:+ originalName))).
Proof.
  unfold post_upload.
  destruct (upload dirname now parts d) as [[e d0]|[[body [f|]] d0]] eqn:E.
  { destruct (is_multer_error e); by intros [= <- _]. }
  2: { by intros [= <- _]. }
  destruct (upload_fields_present _ _ _ _ _ _ _ E) as [Hv Ht].
  rewrite Hv, Ht. simpl.
  destruct (body !! "vehicleId") as [[v|?]|] eqn:Ev;
    [|by destruct (body !! "type") as [[]|]; intros [= <- _]|done].
  destruct (body !! "type") as [[t|?]|] eqn:Et;
    [|by intros [= <- _]|done].
  intros [= <- <-] _. simpl.
  unfold upload, Multer.single in E.
  pose proof (process_body _ _ _ _ _ _ _ _ _ _ _ E) as ->.
  apply process_uploaded in E as (originalName & content & Hin & Hname & Hf).
  apply body_after_text in Ev as [Ev|Ev]; [by rewrite lookup_empty in Ev|].
  apply body_after_text in Et as [Et|Et]; [by rewrite lookup_empty in Et|].
  exists v, t, originalName, content.
  repeat (split; [done || by (intros ->)|]).
  split; [apply timestamp_digits|].
  rewrite Hf. unfold storage_filename.
  split; [by rewrite lookup_insert_ne, lookup_singleton_eq|].
  intros Hcv Hct Hcn.
  rewrite lookup_insert_ne, lookup_singleton_eq by done.
  rewrite join_documents_clean; try done.
  by apply clean_storage_filename.
Qed.

Lemma upload_path_witness :
  post_upload app_dir 1700000000000 card_upload Fs.empty
  = (Response 200
       {[ "message" := VStr "File uploaded successfully";
          "path" := VStr "/documents/v1/insurance/1700000000000-card.pdf" ]},
     disk_with_card) ∧
  ∃ vehicleId type originalName content,
    Field "vehicleId" vehicleId ∈ card_upload ∧
    Field "type" type ∈ card_upload ∧
    File "file" originalName content ∈ card_upload ∧
    vehicleId ≠ "" ∧ type ≠ "" ∧ originalName ≠ "" ∧
    all_chars is_digit (pretty 1700000000000%N) = true ∧
    json (Response 200
       {[ "message" := VStr "File uploaded successfully";
          "path" := VStr "/documents/v1/insurance/1700000000000-card.pdf" ]})
      !! "path"
    = Some (VStr (Path.join ["/documents"; vehicleId; type;
                             pretty 1700000000000%N +:+ "-" +:+ originalName])) ∧
    (clean vehicleId = true → clean type = true → no_separator originalName →
     json (Response 200
       {[ "message" := VStr "File uploaded successfully";
          "path" := VStr "/documents/v1/insurance/1700000000000-card.pdf" ]})
      !! "path"
     = Some (VStr ("/documents/" +:+ vehicleId +:+ "/" +:+ type +:+ "/"
                   +:+ pretty 1700000000000%N +:+ "-" +:+ originalName))).
Proof.
  assert (post_upload app_dir 1700000000000 card_upload Fs.empty
  = (Response 200
       {[ "message" := VStr "File uploaded successfully";
          "path" := VStr "/documents/v1/insurance/1700000000000-card.pdf" ]},
     disk_with_card)) as H by (vm_compute; reflexivity).
  split; [exact H|].
  apply (upload_path app_dir 1700000000000 card_upload Fs.empty _ _ H).
  reflexivity.
Defined.

(** C6, as stated, fails: with [..] for [vehicleId] the request is answered
    200 and the path, normalized, is not under [/documents]. *)
Lemma upload_path_normalized :
  let resp :=
    (post_upload app_dir 1700000000000
       [Field "vehicleId" ".."; Field "type" "insurance";
        File "file" "card.pdf" card] Fs.empty).1 in
  status resp = 200%N ∧
  json resp !! "path" = Some (VStr "/insurance/1700000000000-card.pdf") ∧
  json resp !! "path"
  ≠ Some (VStr ("/documents/" +:+ ".." +:+ "/" +:+ "insurance" +:+ "/"
                +:+ pretty 1700000000000%N +:+ "-" +:+ "card.pdf")).
Proof.
  assert ((post_upload app_dir 1700000000000
             [Field "vehicleId" ".."; Field "type" "insurance";
              File "file" "card.pdf" card] Fs.empty).1
          = Response 200
              {[ "message" := VStr "File uploaded successfully";
                 "path" := VStr "/insurance/1700000000000-card.pdf" ]}) as ->
    by (vm_compute; reflexivity).
  split; [reflexivity|]. split; [reflexivity|].
  vm_compute. discriminate.
Qed.

(** * Further properties of the condition and vehicle routes *)

Lemma filter_keeps_idempotent conditionId l :
  List.filter (keeps conditionId) (List.filter (keeps conditionId) l)
  = List.filter (keeps conditionId) l.
Proof.
  induction l as [|c l IH]; [done|]. simpl.
  destruct (keeps conditionId c) eqn:E; [|done]. simpl. by rewrite E, IH.
Qed.

Lemma filter_no_null (f : value → bool) l :
  existsb is_null l = false → existsb is_null (List.filter f l) = false.
Proof.
  induction l as [|c l IH]; [done|]. simpl.
  rewrite orb_false_iff. intros [Hc Hl].
  destruct (f c); simpl; [rewrite Hc|]; by apply IH.
Qed.

(** X12. Deleting is idempotent: a second deletion of the same identifier
    gives the answer of the first and leaves the store as the first left
    it, whatever the document holds. *)
Theorem delete_condition_idempotent vehicleId conditionId
    (db : gmap string (gmap string value)) :
  delete_condition vehicleId conditionId
    (delete_condition vehicleId conditionId db).2
  = delete_condition vehicleId conditionId db.
Proof.
  unfold delete_condition at 2 3. unfold Firestore.get.
  destruct (db !! vehicleId) as [data|] eqn:Hdoc; simpl.
  2: { unfold delete_condition, Firestore.get. by rewrite Hdoc. }
  destruct (or_else (data !! "conditions") (VArr [])) as [| | | |l|] eqn:E;
    simpl; try (unfold delete_condition, Firestore.get; by rewrite Hdoc, E).
  destruct (existsb is_null l) eqn:Hnull; simpl.
  { unfold delete_condition, Firestore.get. by rewrite Hdoc, E, Hnull. }
  rewrite (update_conditions _ _ _ Hdoc).
  unfold delete_condition, Firestore.get. rewrite lookup_insert_eq.
  rewrite lookup_insert_eq. simpl.
  rewrite (filter_no_null _ _ Hnull), filter_keeps_idempotent.
  rewrite (update_conditions _ _ _ (lookup_insert_eq _ _ _)).
  by rewrite insert_insert_eq, insert_insert_eq.
Qed.

(** X11. Adding a record and then deleting it by the identifier it was given
    brings the sequence back: when no record of the document bears the
    generated identifier and the body has no [id], both requests succeed and
    the document is the one of before, with [conditions] holding the
    sequence it had. *)
Theorem post_then_delete_condition (db : gmap string (gmap string value))
    vehicleId data l uuid body :
  db !! vehicleId = Some data →
  conditions_of data = Some l →
  VNull ∉ l →
  (∀ c, c ∈ l → ¬ has_id uuid c) →
  spread body !! "id" = None →
  ∃ c db1,
    post_condition uuid vehicleId body db = (Response 201 c, db1) ∧
    delete_condition vehicleId uuid db1
    = (Response 200 {[ "message" := VStr "Condition deleted successfully" ]},
       <[vehicleId := <[ "conditions" := VArr l ]> data]> db).
Proof.
  intros Hdoc Hl Hnull Hfresh Hid. eexists _, _.
  split; [by apply post_condition_found|].
  erewrite delete_condition_found;
    [|apply lookup_insert_eq|apply conditions_of_insert|].
  - rewrite insert_insert_eq, insert_insert_eq. do 3 f_equal.
    rewrite List.filter_app, (filter_keeps_all _ _ Hfresh).
    cbn [List.filter].
    assert (keeps uuid (VObj (conditionData uuid body)) = false) as ->.
    { apply keeps_false. eexists. split; [done|].
      by apply conditionData_id_fresh. }
    by rewrite app_nil_r.
  - intros H. apply elem_of_app in H as [H|H]; [done|].
    by apply list_elem_of_singleton in H.
Qed.

Lemma post_then_delete_condition_witness :
  garage !! "v1" = Some fiat ∧
  conditions_of fiat = Some [VObj {[ "id" := VStr "c0" ]}] ∧
  (VNull ∉ [VObj {[ "id" := VStr "c0" ]}]) ∧
  (∀ c, c ∈ [VObj {[ "id" := VStr "c0" ]}] → ¬ has_id "u-1" c) ∧
  spread dent !! "id" = None ∧
  ∃ c db1,
    post_condition "u-1" "v1" dent garage = (Response 201 c, db1) ∧
    delete_condition "v1" "u-1" db1
    = (Response 200 {[ "message" := VStr "Condition deleted successfully" ]},
       <["v1" := <[ "conditions" := VArr [VObj {[ "id" := VStr "c0" ]}] ]> fiat]>
         garage).
Proof.
  assert (VNull ∉ [VObj {[ "id" := VStr "c0" ]}]) as Hnull.
  { intros H. by apply list_elem_of_singleton in H. }
  assert (∀ c, c ∈ [VObj {[ "id" := VStr "c0" ]}] → ¬ has_id "u-1" c) as Hfresh.
  { intros c H (m & -> & Hm). apply list_elem_of_singleton in H.
    injection H as ->. discriminate Hm. }
  do 2 (split; [reflexivity|]). split; [exact Hnull|].
  split; [exact Hfresh|]. split; [reflexivity|].
  apply (post_then_delete_condition garage "v1" fiat
           [VObj {[ "id" := VStr "c0" ]}] "u-1" dent);
    [reflexivity | reflexivity | exact Hnull | exact Hfresh | reflexivity].
Defined.

(** X17. The three routes of a vehicle answer 404 exactly when the vehicle has
    no document. *)
Theorem vehicle_routes_not_found (db : gmap string (gmap string value))
    uuid vehicleId body conditionId :
  (status (post_condition uuid vehicleId body db).1 = 404%N
   ↔ db !! vehicleId = None) ∧
  (status (delete_condition vehicleId conditionId db).1 = 404%N
   ↔ db !! vehicleId = None) ∧
  (status (get_vehicle vehicleId db) = 404%N ↔ db !! vehicleId = None).
Proof.
  unfold post_condition, delete_condition, get_vehicle, Firestore.get.
  destruct (db !! vehicleId) as [data|]; [|done].
  destruct (or_else (data !! "conditions") (VArr [])); simpl;
    try destruct (existsb is_null _); simpl; done.
Qed.

(** X14. Reading an existing vehicle answers 200 with every field of the
    document except [conditions] under its own name, [vehicleId] (the
    document's own field of that name if it has one, the path parameter
    otherwise), and [conditions]: the stored sequence when there is one,
    the empty sequence when the field is missing, [null], [false], [0] or
    the empty string. *)
Theorem get_vehicle_found (db : gmap string (gmap string value))
    vehicleId data l :
  db !! vehicleId = Some data →
  conditions_of data = Some l →
  ∃ out,
    get_vehicle vehicleId db = Response 200 out ∧
    out !! "conditions" = Some (VArr l) ∧
    (∀ k, k ≠ "conditions" → k ≠ "vehicleId" → out !! k = data !! k) ∧
    out !! "vehicleId" = Some (default (VStr vehicleId) (data !! "vehicleId")) ∧
    (∀ v, data !! "conditions" = Some v → truthy v = false → l = []).
Proof.
  intros Hdoc Hl. unfold get_vehicle, Firestore.get. rewrite Hdoc.
  rewrite (conditions_of_array _ _ Hl). eexists. split; [done|].
  split; [apply lookup_insert_eq|]. split; [|split].
  - intros k Hk Hv. rewrite lookup_insert_ne by done.
    rewrite lookup_union, lookup_singleton_ne by done.
    by destruct (data !! k).
  - rewrite lookup_insert_ne by done. rewrite lookup_union.
    rewrite lookup_singleton_eq. by destruct (data !! "vehicleId").
  - intros v Hv Hfalsy. unfold conditions_of in Hl.
    rewrite Hv in Hl. simpl in Hl. rewrite Hfalsy in Hl. by injection Hl.
Qed.

Lemma get_vehicle_found_witness :
  ({[ "v3" := scrapped ]} : gmap string (gmap string value)) !! "v3"
  = Some scrapped ∧
  conditions_of scrapped = Some [] ∧
  ∃ out,
    get_vehicle "v3" {[ "v3" := scrapped ]} = Response 200 out ∧
    out !! "conditions" = Some (VArr []) ∧
    (∀ k, k ≠ "conditions" → k ≠ "vehicleId" → out !! k = scrapped !! k) ∧
    out !! "vehicleId"
    = Some (default (VStr "v3") (scrapped !! "vehicleId")) ∧
    (∀ v, scrapped !! "conditions" = Some v → truthy v = false →
          ([] : list value) = []).
Proof.
  do 2 (split; [reflexivity|]).
  apply (get_vehicle_found {[ "v3" := scrapped ]} "v3" scrapped []);
    reflexivity.
Defined.

Lemma conditions_of_none (data : gmap string value) :
  conditions_of data = None →
  ∃ v, data !! "conditions" = Some v ∧
       or_else (data !! "conditions") (VArr []) = v ∧
       ∀ l, v ≠ VArr l.
Proof.
  unfold conditions_of, or_else.
  destruct (data !! "conditions") as [v|]; [|done].
  destruct (truthy v); [|done].
  intros H. exists v. by destruct v.
Qed.

(** X15. A document whose [conditions] holds a truthy value that is no array
    (a string, a number, an object) cannot be changed through the routes:
    the addition and the deletion answer 500 and write nothing, while the
    read answers 200 and hands that value out as [conditions]. *)
Theorem conditions_not_a_sequence (db : gmap string (gmap string value))
    vehicleId data uuid body conditionId :
  db !! vehicleId = Some data →
  conditions_of data = None →
  ∃ r1 r2 out,
    post_condition uuid vehicleId body db = (r1, db) ∧ status r1 = 500%N ∧
    delete_condition vehicleId conditionId db = (r2, db) ∧ status r2 = 500%N ∧
    get_vehicle vehicleId db = Response 200 out ∧
    out !! "conditions" = data !! "conditions" ∧
    (∀ l, out !! "conditions" ≠ Some (VArr l)).
Proof.
  intros Hdoc Hl.
  destruct (conditions_of_none _ Hl) as (v & Hv & Hor & Hshape).
  unfold post_condition, delete_condition, get_vehicle, Firestore.get.
  rewrite Hdoc, Hor.
  destruct v as [| | | |l|]; try (by destruct (Hshape l));
    eexists _, _, _; repeat split; try done;
    rewrite lookup_insert_eq; congruence.
Qed.

Lemma conditions_not_a_sequence_witness :
  let data : gmap string value := {[ "conditions" := VStr "none" ]} in
  let db : gmap string (gmap string value) := {[ "v4" := data ]} in
  db !! "v4" = Some data ∧
  conditions_of data = None ∧
  ∃ r1 r2 out,
    post_condition "u-1" "v4" dent db = (r1, db) ∧ status r1 = 500%N ∧
    delete_condition "v4" "c0" db = (r2, db) ∧ status r2 = 500%N ∧
    get_vehicle "v4" db = Response 200 out ∧
    out !! "conditions" = data !! "conditions" ∧
    (∀ l, out !! "conditions" ≠ Some (VArr l)).
Proof.
  intros data db. do 2 (split; [reflexivity|]).
  apply (conditions_not_a_sequence db "v4" data "u-1" dent "c0");
    reflexivity.
Defined.

(** The two steps in a row are the handler. *)
Lemma post_condition_in_steps rejected uuid vehicleId body
    (db : gmap string (gmap string value)) :
  post_condition uuid vehicleId body db
  = match post_condition_get uuid vehicleId body db with
    | inl r => (r, db)
    | inr (c, s) => post_condition_update rejected vehicleId c s db
    end.
Proof.
  unfold post_condition, post_condition_get, post_condition_update,
    Firestore.get.
  destruct (db !! vehicleId) as [data|] eqn:Hdoc; [|done].
  destruct (or_else (data !! "conditions") (VArr [])); by rewrite ?Hdoc.
Qed.

(** X13. Two additions that both read the document before either writes it
    are both answered 201 with their record, and the second write replaces
    the sequence of the first: the document ends with the records it had
    and the second record, without the first. *)
Theorem post_condition_lost_update rejected
    (db : gmap string (gmap string value)) vehicleId data l
    uuid1 uuid2 body1 body2 :
  db !! vehicleId = Some data →
  conditions_of data = Some l →
  ∃ c1 s1 c2 s2 db1 db2,
    post_condition_get uuid1 vehicleId body1 db = inr (c1, s1) ∧
    post_condition_get uuid2 vehicleId body2 db = inr (c2, s2) ∧
    post_condition_update rejected vehicleId c1 s1 db = (Response 201 c1, db1) ∧
    post_condition_update rejected vehicleId c2 s2 db1 = (Response 201 c2, db2) ∧
    c1 = conditionData uuid1 body1 ∧
    c2 = conditionData uuid2 body2 ∧
    Firestore.field db1 vehicleId "conditions" = Some (VArr (l ++ [VObj c1])) ∧
    Firestore.field db2 vehicleId "conditions" = Some (VArr (l ++ [VObj c2])).
Proof.
  intros Hdoc Hl.
  set (c1 := conditionData uuid1 body1). set (c2 := conditionData uuid2 body2).
  set (db1 := <[vehicleId := <[ "conditions" := VArr (l ++ [VObj c1]) ]> data]> db).
  assert (db1 !! vehicleId
          = Some (<[ "conditions" := VArr (l ++ [VObj c1]) ]> data)) as Hdoc1
    by apply lookup_insert_eq.
  exists c1, (l ++ [VObj c1]), c2, (l ++ [VObj c2]), db1.
  exists (<[vehicleId :=
              <[ "conditions" := VArr (l ++ [VObj c2]) ]>
                (<[ "conditions" := VArr (l ++ [VObj c1]) ]> data)]> db1).
  unfold post_condition_get, post_condition_update, Firestore.get.
  rewrite Hdoc, Hdoc1, (conditions_of_array _ _ Hl).
  rewrite (update_conditions _ _ _ Hdoc), (update_conditions _ _ _ Hdoc1).
  do 6 (split; [done|]).
  unfold Firestore.field. rewrite Hdoc1, lookup_insert_eq. simpl.
  by rewrite !lookup_insert_eq.
Qed.

Lemma post_condition_lost_update_witness :
  garage !! "v1" = Some fiat ∧
  conditions_of fiat = Some [VObj {[ "id" := VStr "c0" ]}] ∧
  ∃ c1 s1 c2 s2 db1 db2,
    post_condition_get "u-1" "v1" dent garage = inr (c1, s1) ∧
    post_condition_get "u-2" "v1" rust garage = inr (c2, s2) ∧
    post_condition_update "NOT_FOUND" "v1" c1 s1 garage = (Response 201 c1, db1) ∧
    post_condition_update "NOT_FOUND" "v1" c2 s2 db1 = (Response 201 c2, db2) ∧
    c1 = conditionData "u-1" dent ∧
    c2 = conditionData "u-2" rust ∧
    Firestore.field db1 "v1" "conditions"
    = Some (VArr ([VObj {[ "id" := VStr "c0" ]}] ++ [VObj c1])) ∧
    Firestore.field db2 "v1" "conditions"
    = Some (VArr ([VObj {[ "id" := VStr "c0" ]}] ++ [VObj c2])).
Proof.
  do 2 (split; [reflexivity|]).
  apply (post_condition_lost_update "NOT_FOUND" garage "v1" fiat
           [VObj {[ "id" := VStr "c0" ]}] "u-1" "u-2" dent rust);
    reflexivity.
Defined.

(** ** A body that is an array *)

Lemma pretty_nat_not_id (i : nat) : pretty i ≠ "id".
Proof.
  intros H. pose proof (proj1 (timestamp_digits (N.of_nat i))) as Hd.
  unfold pretty, pretty_nat in H. by rewrite H in Hd.
Qed.

Lemma index_map_lookup (xs : list value) n j :
  (list_to_map (imap (λ i x, (pretty (n + i), x)) xs) : gmap string value)
    !! pretty (n + j) = xs !! j.
Proof.
  revert n j. induction xs as [|x xs IH]; intros n j; [done|].
  rewrite imap_cons. simpl.
  destruct j as [|j].
  - by rewrite lookup_insert_eq.
  - rewrite lookup_insert_ne.
    2: { intros H. apply (inj pretty) in H. lia. }
    simpl. replace (n + S j) with (S n + j) by lia.
    rewrite <-(IH (S n) j). do 2 f_equal.
    apply imap_ext. intros i y _. simpl. do 2 f_equal. lia.
Qed.

Lemma index_map_no_id (xs : list value) n :
  (list_to_map (imap (λ i x, (pretty (n + i), x)) xs) : gmap string value)
    !! "id" = None.
Proof.
  revert n. induction xs as [|x xs IH]; intros n; [done|].
  rewrite imap_cons. simpl.
  rewrite lookup_insert_ne by apply pretty_nat_not_id.
  rewrite <-(IH (S n)). do 2 f_equal.
  apply imap_ext. intros i y _. simpl. do 2 f_equal. lia.
Qed.

(** X16. A body that is a JSON array is stored as a record that has the
    elements of the array under their indices, written in decimal, the
    generated [id], and nothing else. *)
Theorem conditionData_array uuid (xs : list value) :
  conditionData uuid (VArr xs) !! "id" = Some (VStr uuid) ∧
  (∀ j : nat, conditionData uuid (VArr xs) !! pretty j = xs !! j) ∧
  (∀ k v, conditionData uuid (VArr xs) !! k = Some v →
          k = "id" ∨ ∃ j : nat, k = pretty j ∧ xs !! j = Some v).
Proof.
  assert (spread (VArr xs)
          = list_to_map (imap (λ i x, (pretty (0 + i), x)) xs)) as Hs by done.
  split; [|split].
  - apply conditionData_id_fresh. rewrite Hs. apply index_map_no_id.
  - intros j. rewrite conditionData_other by apply pretty_nat_not_id.
    rewrite Hs. apply (index_map_lookup xs 0 j).
  - intros k v Hk. destruct (decide (k = "id")) as [|Hne]; [by left|right].
    rewrite conditionData_other in Hk by done. simpl in Hk.
    apply elem_of_list_to_map_2 in Hk.
    apply elem_of_lookup_imap in Hk as (j & x & [= -> ->] & Hj). eauto.
Qed.

Example conditionData_of_pair :
  conditionData "u-1" (VArr [VStr "dent"; VNull])
  = {[ "id" := VStr "u-1"; "0" := VStr "dent"; "1" := VNull ]}.
Proof. vm_compute. reflexivity. Qed.

(** ** An addition, then a read *)

(** C8. The record that an accepted addition answers with is the last
    element of [conditions] in the next read of that vehicle, after the
    records that were there.  When the body is an object, the record has
    every property of the body with its value and differs from the body in
    [id] alone, which is the [id] of the body when it has one and the
    generated identifier otherwise.  When the body is an array, the record
    has the elements under their indices, the generated [id], and nothing
    else. *)
Theorem post_condition_then_get (db : gmap string (gmap string value))
    vehicleId uuid body resp db' :
  post_condition uuid vehicleId body db = (resp, db') →
  status resp = 201%N →
  ∃ data l out,
    db !! vehicleId = Some data ∧
    conditions_of data = Some l ∧
    get_vehicle vehicleId db' = Response 200 out ∧
    out !! "conditions" = Some (VArr (l ++ [VObj (json resp)])) ∧
    (∀ m, body = VObj m →
       (∀ k v, m !! k = Some v → json resp !! k = Some v) ∧
       (∀ k, k ≠ "id" → json resp !! k = m !! k) ∧
       json resp !! "id" = Some (default (VStr uuid) (m !! "id"))) ∧
    (∀ xs, body = VArr xs →
       (∀ j : nat, json resp !! pretty j = xs !! j) ∧
       json resp !! "id" = Some (VStr uuid) ∧
       (∀ k v, json resp !! k = Some v →
               k = "id" ∨ ∃ j : nat, k = pretty j ∧ xs !! j = Some v)).
Proof.
  intros Hpost Hstatus.
  destruct (post_condition_created _ _ _ _ _ _ Hpost Hstatus)
    as (data & l & Hdoc & Hl).
  rewrite (post_condition_found _ _ _ _ _ _ Hdoc Hl) in Hpost.
  injection Hpost as <- <-. simpl.
  exists data, l. eexists. split; [done|]. split; [done|].
  unfold get_vehicle, Firestore.get. rewrite lookup_insert_eq.
  split; [done|]. split; [|split].
  - by rewrite !lookup_insert_eq.
  - intros m ->. split; [|split].
    + intros k v. apply conditionData_object_body.
    + intros k. apply conditionData_object_other.
    + apply conditionData_object_id.
  - intros xs ->.
    assert (spread (VArr xs)
            = list_to_map (imap (λ i x, (pretty (0 + i), x)) xs)) as Hs by done.
    split; [|split].
    + intros j. rewrite conditionData_other by apply pretty_nat_not_id.
      rewrite Hs. apply (index_map_lookup xs 0 j).
    + apply conditionData_id_fresh. rewrite Hs. apply index_map_no_id.
    + intros k v Hk. destruct (decide (k = "id")) as [|Hne]; [by left|right].
      rewrite conditionData_other in Hk by done. simpl in Hk.
      apply elem_of_list_to_map_2 in Hk.
      apply elem_of_lookup_imap in Hk as (j & x & [= -> ->] & Hj). eauto.
Qed.

Lemma post_condition_then_get_witness :
  let resp := (post_condition "u-1" "v1" dent garage).1 in
  let db' := (post_condition "u-1" "v1" dent garage).2 in
  status resp = 201%N ∧
  ∃ data l out,
    garage !! "v1" = Some data ∧
    conditions_of data = Some l ∧
    get_vehicle "v1" db' = Response 200 out ∧
    out !! "conditions" = Some (VArr (l ++ [VObj (json resp)])) ∧
    (∀ m, dent = VObj m →
       (∀ k v, m !! k = Some v → json resp !! k = Some v) ∧
       (∀ k, k ≠ "id" → json resp !! k = m !! k) ∧
       json resp !! "id" = Some (default (VStr "u-1") (m !! "id"))) ∧
    (∀ xs, dent = VArr xs →
       (∀ j : nat, json resp !! pretty j = xs !! j) ∧
       json resp !! "id" = Some (VStr "u-1") ∧
       (∀ k v, json resp !! k = Some v →
               k = "id" ∨ ∃ j : nat, k = pretty j ∧ xs !! j = Some v)).
Proof.
  intros resp db'. split; [reflexivity|].
  apply (post_condition_then_get garage "v1" "u-1" dent resp db');
    [apply surjective_pairing | reflexivity].
Defined.

Example post_condition_then_get_dent :
  let db' := (post_condition "u-1" "v1" dent garage).2 in
  json (get_vehicle "v1" db') !! "conditions"
  = Some (VArr [VObj {[ "id" := VStr "c0" ]};
                VObj {[ "id" := VStr "u-1"; "note" := VStr "dent" ]}]).
Proof. vm_compute. reflexivity. Qed.

(** An array as the body, read back. *)
Example post_condition_then_get_pair :
  let db' := (post_condition "u-1" "v2" (VArr [VStr "dent"; VNull]) garage).2 in
  json (get_vehicle "v2" db') !! "conditions"
  = Some (VArr [VObj {[ "id" := VStr "u-1"; "0" := VStr "dent"; "1" := VNull ]}]).
Proof. vm_compute. reflexivity. Qed.

(** * Where the files are stored *)

(** ** Resolving a normalized path *)

Lemma step_false_kept res seg :
  forallb kept res = true → forallb kept (Path.step false res seg) = true.
Proof.
  intros Hres. unfold Path.step.
  destruct (String.eqb seg "" || String.eqb seg ".") eqn:E1; [done|].
  destruct (String.eqb seg "..") eqn:E2.
  - destruct res as [|last res]; [done|].
    destruct (String.eqb last ".."); [done|].
    simpl in Hres. by apply andb_true_iff in Hres as [_ Hres].
  - simpl. rewrite Hres, andb_true_r. unfold kept.
    apply orb_false_iff in E1 as [-> ->]. by rewrite E2.
Qed.

Lemma fold_step_false_kept segs res :
  forallb kept res = true →
  forallb kept (fold_left (Path.step false) segs res) = true.
Proof.
  revert res. induction segs as [|seg segs IH]; intros res Hres; [done|].
  simpl. by apply IH, step_false_kept.
Qed.

Lemma resolve_kept p : forallb kept (Fs.resolve p) = true.
Proof.
  unfold Fs.resolve, Path.normalizeString.
  rewrite forallb_forall. intros seg Hseg. apply in_rev in Hseg.
  revert seg Hseg. rewrite <-forallb_forall.
  by apply fold_step_false_kept.
Qed.

(** With [allowAboveRoot] the result is that without it, over the [..]
    segments that climb above the start. *)
Lemma fold_step_above segs res k :
  forallb kept res = true →
  ∃ k',
    fold_left (Path.step true) segs (res ++ replicate k "..")
    = fold_left (Path.step false) segs res ++ replicate k' "..".
Proof.
  revert res k. induction segs as [|seg segs IH]; intros res k Hres.
  { by exists k. }
  simpl. unfold Path.step at 2 4.
  destruct (String.eqb seg "" || String.eqb seg ".") eqn:E1; [by apply IH|].
  destruct (String.eqb seg "..") eqn:E2.
  - apply String.eqb_eq in E2 as ->.
    destruct res as [|last res].
    + simpl. destruct k as [|k]; simpl.
      * apply (IH [] 1). done.
      * apply (IH [] (S (S k))). done.
    + simpl in Hres. apply andb_true_iff in Hres as [Hlast Hres].
      assert (String.eqb last ".." = false) as Hl.
      { unfold kept in Hlast. apply negb_true_iff in Hlast.
        by apply orb_false_iff in Hlast as [_ ->]. }
      simpl. rewrite !Hl. by apply IH.
  - change (seg :: res ++ replicate k "..") with ((seg :: res) ++ replicate k "..").
    apply IH. simpl. rewrite Hres, andb_true_r. unfold kept.
    apply orb_false_iff in E1 as [-> ->]. by rewrite E2.
Qed.

Lemma normalizeString_above segs :
  ∃ k, Path.normalizeString segs true
       = replicate k ".." ++ Path.normalizeString segs false.
Proof.
  unfold Path.normalizeString.
  destruct (fold_step_above segs [] 0 eq_refl) as [k Hk]. simpl in Hk.
  exists k. rewrite Hk, rev_app_distr. f_equal.
  clear. induction k as [|k IH]; [done|]. simpl. rewrite IH.
  clear. induction k as [|k IH]; [done|]. simpl. by rewrite <-IH.
Qed.

Lemma split_no_separator s seg : seg ∈ Path.split s → no_separator seg.
Proof.
  revert seg. induction s as [|c s IH]; intros seg; simpl.
  { intros H. by apply list_elem_of_singleton in H as ->. }
  destruct (Ascii.eqb c "/") eqn:Ec.
  - intros H. apply elem_of_cons in H as [->|H]; [done|by apply IH].
  - destruct (split_cons s) as (h & t & Hs). rewrite Hs in *.
    intros H. apply elem_of_cons in H as [->|H].
    + unfold no_separator. simpl. rewrite Ec.
      assert (no_separator h) as -> by (apply IH; left). done.
    + apply IH. by right.
Qed.

Lemma step_subset allow res seg x :
  x ∈ Path.step allow res seg → x = seg ∨ x ∈ res.
Proof.
  unfold Path.step.
  destruct (_ || _); [auto|]. destruct (String.eqb seg "..").
  - destruct res as [|last res].
    + destruct allow; [|auto]. intros H.
      apply list_elem_of_singleton in H. auto.
    + destruct (String.eqb last ".."); [destruct allow|].
      * intros H. apply elem_of_cons in H as [?|?]; auto.
      * auto.
      * intros H. right. by right.
  - intros H. apply elem_of_cons in H as [?|?]; auto.
Qed.

Lemma fold_step_subset allow segs res x :
  x ∈ fold_left (Path.step allow) segs res → x ∈ segs ∨ x ∈ res.
Proof.
  revert res. induction segs as [|seg segs IH]; intros res; simpl; [auto|].
  intros H. destruct (IH _ H) as [?|H']; [left; by right|].
  destruct (step_subset _ _ _ _ H') as [->|?]; [left; left|auto].
Qed.

Lemma normalizeString_no_separator s allow seg :
  seg ∈ Path.normalizeString (Path.split s) allow → no_separator seg.
Proof.
  unfold Path.normalizeString. intros H.
  apply list_elem_of_In, in_rev, list_elem_of_In in H.
  apply fold_step_subset in H as [H|H]; [|by apply elem_of_nil in H].
  by apply (split_no_separator s).
Qed.

Lemma split_concat l :
  l ≠ [] → (∀ seg, seg ∈ l → no_separator seg) →
  Path.split (String.concat "/" l) = l.
Proof.
  induction l as [|x l IH]; [done|]. intros _ Hl.
  destruct l as [|y l].
  - simpl. apply Hl. left.
  - rewrite concat_cons, split_append, IH; [|done|].
    + assert (no_separator x) as -> by (apply Hl; left). done.
    + intros seg ?. apply Hl. by right.
Qed.

Lemma concat_empty l :
  (∀ seg, seg ∈ l → seg ≠ "") → String.concat "/" l = "" → l = [].
Proof.
  destruct l as [|x l]; [done|]. intros Hl H. exfalso.
  destruct l as [|y l].
  - simpl in H. by apply (Hl x); [left|].
  - rewrite concat_cons in H. destruct x; [|done].
    by apply (Hl ""); [left|].
Qed.

Lemma fold_step_dots k : fold_left (Path.step false) (replicate k "..") [] = [].
Proof. induction k as [|k IH]; [done|]. exact IH. Qed.

Lemma resolve_segments l trailing :
  forallb kept l = true →
  fold_left (Path.step false) (l ++ (if trailing : bool then [""] else [])) []
  = rev l.
Proof.
  intros Hl. rewrite fold_left_app, (fold_step_kept _ l) by done.
  rewrite app_nil_r. by destruct trailing.
Qed.

Lemma kept_nonempty seg : kept seg = true → seg ≠ "".
Proof. by intros H ->. Qed.

Lemma forallb_kept_elem l seg :
  forallb kept l = true → seg ∈ l → kept seg = true.
Proof.
  rewrite forallb_forall. intros H Hseg. by apply H, list_elem_of_In.
Qed.

(** The segments of a rendered path: those rendered, after an empty one for
    the leading separator and before one for a trailing separator. *)
Lemma split_rendered (N : list string) (absolute trailing : bool) :
  N ≠ [] → (∀ seg, seg ∈ N → no_separator seg) →
  Path.split ((if absolute then "/" else "") +:+ String.concat "/" N
              +:+ (if trailing then "/" else ""))
  = (if absolute then [""] else []) ++ N ++ (if trailing then [""] else []).
Proof.
  intros HN Hsep.
  assert (Path.split (String.concat "/" N +:+ (if trailing then "/" else ""))
          = N ++ (if trailing then [""] else [])) as Hrest.
  { destruct trailing.
    - change "/" with ("/" +:+ "") at 2.
      by rewrite split_append, split_concat.
    - by rewrite append_empty_r, app_nil_r, split_concat. }
  destruct absolute; [|by rewrite append_empty_l].
  rewrite append_cons, append_empty_l. simpl. by rewrite Hrest.
Qed.

Lemma resolve_normalize s : Fs.resolve (Path.normalize s) = Fs.resolve s.
Proof.
  destruct s as [|c r]; [done|].
  unfold Path.normalize. set (s := String c r).
  pose proof (resolve_kept s) as HF. unfold Fs.resolve in *.
  set (F := Path.normalizeString (Path.split s) false) in *.
  destruct (Ascii.eqb c "/") eqn:Hc; simpl negb.
  - fold F.
    assert (∀ seg, seg ∈ F → no_separator seg) as Hsep
      by (intros seg; apply normalizeString_no_separator).
    destruct (String.concat "/" F) as [|c' p'] eqn:Hp.
    + apply concat_empty in Hp as ->; [done|].
      intros seg Hseg. eapply kept_nonempty, forallb_kept_elem; done.
    + assert (F ≠ []) as HFne by (intros HF0; by rewrite HF0 in Hp).
      rewrite <-Hp.
      rewrite (split_rendered F true (Path.ends_with_slash s)) by done.
      unfold Path.normalizeString. simpl.
      change (Path.step false [] "") with ([] : list string).
      by rewrite resolve_segments, rev_involutive.
  - destruct (normalizeString_above (Path.split s)) as [k Hk]. fold F in Hk.
    rewrite Hk.
    assert (∀ seg, seg ∈ replicate k ".." ++ F → no_separator seg) as Hsep.
    { intros seg. rewrite <-Hk. apply normalizeString_no_separator. }
    destruct (String.concat "/" (replicate k ".." ++ F)) as [|c' p'] eqn:Hp.
    + apply concat_empty in Hp.
      * apply app_eq_nil in Hp as [_ ->].
        by destruct (Path.ends_with_slash s).
      * intros seg Hseg. apply elem_of_app in Hseg as [Hseg|Hseg].
        -- apply elem_of_replicate in Hseg as [-> _]. done.
        -- eapply kept_nonempty, forallb_kept_elem; done.
    + assert (replicate k ".." ++ F ≠ []) as Hne
        by (intros H0; by rewrite H0 in Hp).
      rewrite <-Hp.
      rewrite (split_rendered _ false (Path.ends_with_slash s)) by done.
      unfold Path.normalizeString. simpl app.
      rewrite <-app_assoc, fold_left_app, fold_step_dots.
      by rewrite resolve_segments, rev_involutive.
Qed.

Lemma resolve_append a b :
  clean b = true → Fs.resolve (a +:+ "/" +:+ b) = Fs.resolve a ++ Path.split b.
Proof.
  intros Hb. unfold Fs.resolve, Path.normalizeString.
  rewrite split_append, fold_left_app, fold_step_kept by done.
  by rewrite rev_app_distr, rev_involutive.
Qed.

Lemma normalize_nonempty s : Path.normalize s ≠ "".
Proof.
  destruct s as [|c r]; [done|]. unfold Path.normalize.
  destruct (String.concat "/" _) as [|c' p'].
  - by destruct (Ascii.eqb c "/"), (Path.ends_with_slash (String c r)).
  - destruct (Ascii.eqb c "/"); [done|]. by rewrite append_empty_l.
Qed.

Lemma join_nonempty l : Path.join l ≠ "".
Proof.
  unfold Path.join. destruct (List.filter _ l); [done|].
  apply normalize_nonempty.
Qed.

(** [path.join] of a path and further clean arguments resolves to the
    segments of the path followed by those of the arguments. *)
Lemma resolve_join base b :
  base ≠ "" → clean b = true →
  Fs.resolve (Path.join [base; b]) = Fs.resolve base ++ Path.split b.
Proof.
  intros Hbase Hb. unfold Path.join. simpl.
  apply String.eqb_neq in Hbase as ->.
  pose proof (proj2 (String.eqb_neq _ _) (clean_nonempty _ Hb)) as ->.
  simpl. rewrite resolve_normalize. by apply resolve_append.
Qed.

(** ** The place of an uploaded file *)

Lemma storage_filename_no_separator now originalname :
  no_separator originalname → no_separator (storage_filename now originalname).
Proof.
  intros Hname. unfold storage_filename, no_separator.
  destruct (timestamp_digits now) as [Hdigits _].
  assert (no_separator (pretty now)) as Hts.
  { apply all_chars_no_separator.
    eapply all_chars_impl; [apply is_digit_not_separator|done]. }
  assert (Path.split ("-" +:+ originalname) = ["-" +:+ originalname]) as Hrest.
  { change ("-" +:+ originalname) with (String "-" originalname).
    simpl. by rewrite Hname. }
  by rewrite (split_append_name _ _ _ _ Hts Hrest).
Qed.

Lemma resolve_upload_directory dirname vehicleId type :
  clean vehicleId = true → clean type = true →
  Fs.resolve (Path.join [dirname; "../public/documents"; vehicleId; type])
  = Fs.resolve (documentsPath dirname)
      ++ Path.split vehicleId ++ Path.split type.
Proof.
  intros Hv Ht. unfold documentsPath, Path.join. simpl List.filter.
  pose proof (proj2 (String.eqb_neq _ _) (clean_nonempty _ Hv)) as ->.
  pose proof (proj2 (String.eqb_neq _ _) (clean_nonempty _ Ht)) as ->.
  assert (clean (vehicleId +:+ "/" +:+ type) = true) as Hvt
    by (by rewrite clean_append, Hv, Ht).
  destruct (String.eqb dirname ""); simpl negb; cbv iota;
    rewrite !resolve_normalize, !concat_cons;
    change (String.concat "/" [type]) with type.
  - rewrite resolve_append by done. by rewrite split_append.
  - change (String.concat "/" ["../public/documents"])
      with "../public/documents".
    rewrite <-(append_assoc dirname), <-(append_assoc (dirname +:+ "/")).
    rewrite (append_assoc dirname).
    rewrite resolve_append by done. by rewrite split_append.
Qed.

(** X2. Where a file is stored and what path is answered for it.  When
    [vehicleId] and [type] are made of kept segments and the file name has
    no separator, the file written by multer lies below the documents
    directory, under the segments of [vehicleId], those of [type] and the
    generated name, and the path of the answer is [documents] followed by
    the same segments: the answer is the place of the file with the
    documents directory replaced by its mount [/documents]. *)
Theorem upload_location dirname now vehicleId type originalname :
  clean vehicleId = true → clean type = true → no_separator originalname →
  let uploadPath :=
    Path.join [dirname; "../public/documents"; vehicleId; type] in
  let name := storage_filename now originalname in
  Fs.resolve (Path.join [uploadPath; name])
  = Fs.resolve (documentsPath dirname)
      ++ Path.split vehicleId ++ Path.split type ++ [name] ∧
  Fs.resolve (Path.join ["/documents"; vehicleId; type; name])
  = ["documents"] ++ Path.split vehicleId ++ Path.split type ++ [name].
Proof.
  intros Hv Ht Hname uploadPath name.
  pose proof (clean_storage_filename now _ Hname) as Hclean.
  pose proof (storage_filename_no_separator now _ Hname) as Hsep.
  fold name in Hclean, Hsep. split.
  - rewrite resolve_join; [|apply join_nonempty|done].
    unfold uploadPath. rewrite resolve_upload_directory by done.
    by rewrite Hsep, <-!app_assoc.
  - rewrite join_documents_clean by done.
    change ("/documents/" +:+ ?r) with ("/documents" +:+ "/" +:+ r).
    rewrite resolve_append.
    + by rewrite !split_append, Hsep.
    + by rewrite !clean_append, Hv, Ht, Hclean.
Qed.

Lemma upload_location_witness :
  clean "v1" = true ∧ clean "insurance" = true ∧ no_separator "card.pdf" ∧
  let uploadPath :=
    Path.join [app_dir; "../public/documents"; "v1"; "insurance"] in
  let name := storage_filename 1700000000000 "card.pdf" in
  Fs.resolve (Path.join [uploadPath; name])
  = Fs.resolve (documentsPath app_dir)
      ++ Path.split "v1" ++ Path.split "insurance" ++ [name] ∧
  Fs.resolve (Path.join ["/documents"; "v1"; "insurance"; name])
  = ["documents"] ++ Path.split "v1" ++ Path.split "insurance" ++ [name].
Proof.
  do 3 (split; [reflexivity|]).
  apply (upload_location app_dir 1700000000000 "v1" "insurance" "card.pdf");
    reflexivity.
Defined.

(** * Further properties of the upload route *)

Lemma mkdirSync_inr p d d1 :
  Fs.mkdirSync p d = inr d1 →
  Fs.files d1 = Fs.files d ∧
  Fs.dirs d1 = Fs.dirs d ∪ list_to_set (Fs.prefixes (Fs.resolve p)).
Proof.
  unfold Fs.mkdirSync. destruct (Fs.is_file _ _); [done|].
  destruct (existsb _ _); [done|]. by intros [= <-].
Qed.

Lemma storage_destination_inv dirname body originalname d uploadPath d1 :
  storage_destination dirname body originalname d = inr (uploadPath, d1) →
  ∃ vehicleId type,
    body !! "vehicleId" = Some (Text vehicleId) ∧ vehicleId ≠ "" ∧
    body !! "type" = Some (Text type) ∧ type ≠ "" ∧
    uploadPath = Path.join [dirname; "../public/documents"; vehicleId; type] ∧
    Fs.mkdirSync uploadPath d = inr d1.
Proof.
  intros H.
  destruct (storage_destination_inr _ _ _ _ _ _ H) as (Hv & Ht & _).
  unfold storage_destination in H. rewrite Hv, Ht in H. simpl in H.
  destruct (body !! "vehicleId") as [[v|?]|]; try done.
  destruct (body !! "type") as [[t|?]|]; try done.
  destruct (Fs.mkdirSync _ d) as [e|d2] eqn:Hmk; [done|].
  injection H as <- <-. exists v, t.
  simpl in Hv, Ht. apply negb_true_iff, String.eqb_neq in Hv, Ht. done.
Qed.

Section after_the_file.

Context (getDestination :
           gmap string field_value → string → Fs.t → js_error + string * Fs.t).
Context (getFilename : string → string).
Context (limit : N) (fieldName : string).

Local Abbreviation process :=
  (Multer.process getDestination getFilename limit fieldName).

(** Once the file is stored the other parts can only be text fields: any
    further file fails the request, which removes the stored file. *)
Lemma process_after_file parts body f d :
  match process parts body (Some f) d with
  | inl (_, d') => d' = Fs.unlink (path f) d
  | inr (body', uploaded, d') =>
      body' = body_after parts body ∧ uploaded = Some f ∧ d' = d ∧
      forallb quiet parts = true
  end.
Proof.
  revert body. induction parts as [|p parts IH]; intros body; simpl; [done|].
  destruct p as [name value|fieldname originalname content]; [apply IH|].
  simpl. destruct (String.eqb originalname ""); [apply IH|].
  by rewrite orb_true_r.
Qed.

(** Without a stored file at the end no file part was handled. *)
Lemma process_no_file parts body d body' d' :
  process parts body None d = inr (body', None, d') →
  d' = d ∧ forallb quiet parts = true.
Proof.
  revert body. induction parts as [|p parts IH]; intros body; simpl.
  { by intros [= _ <-]. }
  destruct p as [name value|fieldname originalname content]; [apply IH|].
  simpl. destruct (String.eqb originalname ""); [apply IH|].
  destruct (negb _ || _); [done|].
  destruct (Multer.handleFile _ _ _ _ _ _ _ _) as [[e d1]|[f d1]]; [done|].
  intros H. pose proof (process_after_file parts body f d1) as Hf.
  rewrite H in Hf. by destruct Hf as (_ & ? & _).
Qed.

End after_the_file.

(** The request that has stored its file: text fields, the file part, text
    fields. *)
Lemma upload_stored_inv dirname now parts d body f d' :
  upload dirname now parts d = inr (body, Some f, d') →
  ∃ pre originalname content rest uploadPath d1,
    parts = pre ++ File "file" originalname content :: rest ∧
    forallb quiet pre = true ∧ forallb quiet rest = true ∧
    originalname ≠ "" ∧
    body = body_after parts ∅ ∧
    storage_destination dirname (body_after pre ∅) originalname d
    = inr (uploadPath, d1) ∧
    (N.of_nat (length content) ≤ fileSize)%N ∧
    filename f = storage_filename now originalname ∧
    path f = Path.join [uploadPath; storage_filename now originalname] ∧
    d' = Fs.write (path f) content d1.
Proof.
  unfold upload, Multer.single.
  generalize (∅ : gmap string field_value) at 1 2 3. intros body0.
  revert body0 d.
  induction parts as [|p parts IH]; intros body0 d; simpl; [done|].
  destruct p as [name value|fieldname originalname content].
  - intros H. destruct (IH _ _ H)
      as (pre & o & c & rest & up & d1 & -> & ? & ? & ? & ? & ? & ? & ? & ? & ?).
    by exists (Field name value :: pre), o, c, rest, up, d1.
  - destruct (String.eqb_spec originalname "") as [->|Hname].
    { intros H. destruct (IH _ _ H)
        as (pre & o & c & rest & up & d1 & -> & ? & ? & ? & ? & ? & ? & ? & ? & ?).
      by exists (File fieldname "" content :: pre), o, c, rest, up, d1. }
    destruct (String.eqb_spec fieldname "file") as [->|]; [|done].
    simpl. unfold Multer.handleFile.
    destruct (storage_destination _ _ _ _) as [e|[up d1]] eqn:Hdest; [done|].
    destruct (Fs.open_w _ _); [done|].
    destruct (N.leb_spec fileSize (N.of_nat (length content))) as [|Hsize];
      [done|].
    apply N.lt_le_incl in Hsize.
    intros H.
    match type of H with
    | Multer.process _ _ _ _ _ _ (Some ?f0) ?d0 = _ =>
        pose proof (process_after_file (storage_destination dirname)
                      (storage_filename now) fileSize "file" parts body0 f0 d0)
          as Hf
    end.
    rewrite H in Hf. destruct Hf as (-> & [= ->] & -> & Hrest).
    exists [], originalname, content, parts, up, d1. done.
Qed.

Lemma append_field_some name value (body : gmap string field_value) n x :
  body !! n = Some x →
  append_field name value body !! n = Some x ∨
  ∃ l, append_field name value body !! n = Some (Many l).
Proof.
  intros Hn. unfold append_field. destruct (decide (name = n)) as [->|Hne].
  - rewrite Hn. destruct x; rewrite lookup_insert_eq; eauto.
  - left. by destruct (body !! name) as [[s|l]|]; rewrite lookup_insert_ne.
Qed.

(** A field that is one string at the end was that string from its
    arrival on. *)
Lemma body_after_text_back parts (body : gmap string field_value) n v x :
  body_after parts body !! n = Some (Text v) →
  body !! n = Some x → x = Text v.
Proof.
  revert body x. induction parts as [|p parts IH]; intros body x; simpl.
  { congruence. }
  destruct p as [name value|fieldname originalname content]; [|apply IH].
  intros Hend Hn.
  destruct (append_field_some name value _ _ _ Hn) as [H|[l H]].
  - by apply (IH _ _ Hend H).
  - by pose proof (IH _ _ Hend H).
Qed.

Lemma body_after_app pre rest (body : gmap string field_value) :
  body_after (pre ++ rest) body = body_after rest (body_after pre body).
Proof.
  revert body. induction pre as [|p pre IH]; intros body; [done|].
  destruct p; simpl; apply IH.
Qed.

Lemma upload_stored_files dirname now parts d resp d' :
  post_upload dirname now parts d = (resp, d') →
  status resp = 200%N →
  ∃ vehicleId type originalname content,
    Field "vehicleId" vehicleId ∈ parts ∧
    Field "type" type ∈ parts ∧
    File "file" originalname content ∈ parts ∧
    (N.of_nat (length content) ≤ fileSize)%N ∧
    let uploadPath :=
      Path.join [dirname; "../public/documents"; vehicleId; type] in
    let finalPath := Path.join [uploadPath; storage_filename now originalname] in
    Fs.files d' = <[Fs.resolve finalPath := content]> (Fs.files d) ∧
    Fs.dirs d ⊆ Fs.dirs d'.
Proof.
  unfold post_upload.
  destruct (upload dirname now parts d) as [[e d0]|[[body [f|]] d0]] eqn:E.
  { destruct (is_multer_error e); by intros [= <- _]. }
  2: { by intros [= <- _]. }
  destruct (upload_fields_present _ _ _ _ _ _ _ E) as [Hv Ht].
  rewrite Hv, Ht. simpl.
  destruct (body !! "vehicleId") as [[v|?]|] eqn:Ev;
    [|by destruct (body !! "type") as [[]|]; intros [= <- _]|done].
  destruct (body !! "type") as [[t|?]|] eqn:Et;
    [|by intros [= <- _]|done].
  intros [= <- <-] _.
  apply upload_stored_inv in E
    as (pre & o & c & rest & up & d1 & -> & Hpre & Hrest & Hname & ->
        & Hdest & Hsize & _ & Hpath & ->).
  apply storage_destination_inv in Hdest
    as (v' & t' & Hv' & _ & Ht' & _ & -> & Hmk).
  pose proof Ev as Ev0. pose proof Et as Et0.
  rewrite body_after_app in Ev0, Et0. simpl in Ev0, Et0.
  pose proof (body_after_text_back _ _ _ _ _ Ev0 Hv') as [= <-].
  pose proof (body_after_text_back _ _ _ _ _ Et0 Ht') as [= <-].
  apply body_after_text in Ev as [Ev|Ev]; [by rewrite lookup_empty in Ev|].
  apply body_after_text in Et as [Et|Et]; [by rewrite lookup_empty in Et|].
  exists v', t', o, c. do 2 (split; [done|]).
  split; [apply elem_of_app; right; left|]. split; [done|].
  apply mkdirSync_inr in Hmk as [Hfiles Hdirs].
  simpl. rewrite Hpath. simpl. rewrite Hfiles, Hdirs.
  split; [done|]. apply union_subseteq_l.
Qed.

(** X1. What an accepted upload leaves on the disk.  A request answered 200
    has the text fields [vehicleId] and [type] and a file part [file] whose
    content is within the limit; after it the disk holds that content at
    [path.join(uploadPath, filename)], every other file is as before and
    no directory is gone. *)
Theorem upload_stores_file dirname now parts d resp d' :
  post_upload dirname now parts d = (resp, d') →
  status resp = 200%N →
  ∃ vehicleId type originalname content,
    Field "vehicleId" vehicleId ∈ parts ∧
    Field "type" type ∈ parts ∧
    File "file" originalname content ∈ parts ∧
    (N.of_nat (length content) ≤ fileSize)%N ∧
    let uploadPath :=
      Path.join [dirname; "../public/documents"; vehicleId; type] in
    let finalPath := Path.join [uploadPath; storage_filename now originalname] in
    Fs.files d' = <[Fs.resolve finalPath := content]> (Fs.files d) ∧
    Fs.dirs d ⊆ Fs.dirs d'.
Proof. apply upload_stored_files. Qed.

Lemma upload_stores_file_witness :
  let resp := (post_upload app_dir 1700000000000 card_upload Fs.empty).1 in
  let d' := (post_upload app_dir 1700000000000 card_upload Fs.empty).2 in
  status resp = 200%N ∧
  ∃ vehicleId type originalname content,
    Field "vehicleId" vehicleId ∈ card_upload ∧
    Field "type" type ∈ card_upload ∧
    File "file" originalname content ∈ card_upload ∧
    (N.of_nat (length content) ≤ fileSize)%N ∧
    let uploadPath :=
      Path.join [app_dir; "../public/documents"; vehicleId; type] in
    let finalPath :=
      Path.join [uploadPath; storage_filename 1700000000000 originalname] in
    Fs.files d' = <[Fs.resolve finalPath := content]> (Fs.files Fs.empty) ∧
    Fs.dirs Fs.empty ⊆ Fs.dirs d'.
Proof.
  intros resp d'.
  assert (status resp = 200%N) as Hs by (vm_compute; reflexivity).
  split; [exact Hs|].
  apply (upload_stores_file app_dir 1700000000000 card_upload Fs.empty
           resp d'); [apply surjective_pairing | exact Hs].
Defined.


Lemma unlink_write_files p q content d c :
  Fs.files (Fs.unlink p (Fs.write p content d)) !! q = Some c →
  Fs.files d !! q = Some c.
Proof.
  simpl. intros H. apply lookup_delete_Some in H as [Hne H].
  by rewrite lookup_insert_ne in H.
Qed.

Lemma process_error_files dirname now parts
    (body : gmap string field_value) d e d' :
  Multer.process (storage_destination dirname) (storage_filename now)
    fileSize "file" parts body None d = inl (e, d') →
  ∀ q c, Fs.files d' !! q = Some c → Fs.files d !! q = Some c.
Proof.
  revert body. induction parts as [|p parts IH]; intros body; simpl; [done|].
  destruct p as [name value|fieldname originalname content]; [apply IH|].
  destruct (String.eqb originalname ""); [apply IH|].
  destruct (negb _ || _); [by intros [= _ <-]|].
  unfold Multer.handleFile.
  destruct (storage_destination _ _ _ _) as [e0|[up d1]] eqn:Hdest.
  { by intros [= _ <-]. }
  apply storage_destination_inr in Hdest as (_ & _ & Hfiles).
  destruct (Fs.open_w _ _).
  { intros [= _ <-]. by rewrite Hfiles. }
  destruct (_ <=? _)%N.
  { intros [= _ <-] q c H. rewrite <-Hfiles.
    by apply unlink_write_files in H. }
  intros H q c.
  match type of H with
  | Multer.process _ _ _ _ _ _ (Some ?f0) ?d0 = _ =>
      pose proof (process_after_file (storage_destination dirname)
                    (storage_filename now) fileSize "file" parts body f0 d0)
        as Hf
  end.
  rewrite H in Hf. subst d'. simpl path. rewrite <-Hfiles.
  apply unlink_write_files.
Qed.

(** X4. A rejected upload leaves no file behind.  Whatever a request is
    answered, short of [File uploaded successfully] and of [Error
    processing upload], every file on the disk afterwards was there before,
    with the same content. *)
Theorem upload_rejected_leaves_no_file dirname now parts d resp d' :
  post_upload dirname now parts d = (resp, d') →
  json resp !! "message" ≠ Some (VStr "File uploaded successfully") →
  json resp !! "message" ≠ Some (VStr "Error processing upload") →
  ∀ q c, Fs.files d' !! q = Some c → Fs.files d !! q = Some c.
Proof.
  unfold post_upload.
  destruct (upload dirname now parts d) as [[e d0]|[[body [f|]] d0]] eqn:E.
  - intros H _ _.
    assert (d0 = d') as -> by (by destruct (is_multer_error e); injection H).
    by apply (process_error_files _ _ _ _ _ _ _ E).
  - destruct (upload_fields_present _ _ _ _ _ _ _ E) as [-> ->]. simpl.
    destruct (body !! "vehicleId") as [[]|], (body !! "type") as [[]|];
      by intros [= <- _].
  - intros [= _ <-] _ _. apply process_no_file in E as [-> _]. done.
Qed.

Lemma upload_rejected_leaves_no_file_witness :
  let parts := [Field "type" "insurance"; File "file" "card.pdf" card] in
  let resp := (post_upload app_dir 1700000000001 parts disk_with_card).1 in
  let d' := (post_upload app_dir 1700000000001 parts disk_with_card).2 in
  json resp !! "message" ≠ Some (VStr "File uploaded successfully") ∧
  json resp !! "message" ≠ Some (VStr "Error processing upload") ∧
  ∀ q c, Fs.files d' !! q = Some c → Fs.files disk_with_card !! q = Some c.
Proof.
  intros parts resp d'.
  assert (json resp !! "message" = Some (VStr "Upload error")) as Hm
    by (vm_compute; reflexivity).
  assert (json resp !! "message" ≠ Some (VStr "File uploaded successfully"))
    as H1 by (rewrite Hm; discriminate).
  assert (json resp !! "message" ≠ Some (VStr "Error processing upload"))
    as H2 by (rewrite Hm; discriminate).
  split; [exact H1|]. split; [exact H2|].
  apply (upload_rejected_leaves_no_file app_dir 1700000000001 parts
           disk_with_card resp d');
    [apply surjective_pairing | exact H1 | exact H2].
Defined.

(** X6. A request without a file.  When every part is a text field, or a
    file part without a file name, the answer is 400 [No file uploaded] and
    the disk is as before, whether [vehicleId] and [type] were sent or
    not. *)
Theorem upload_without_file dirname now parts d :
  forallb quiet parts = true →
  post_upload dirname now parts d
  = (Response 400 {[ "message" := VStr "No file uploaded";
                     "error" := VStr "File is required" ]}, d).
Proof.
  intros Hparts. unfold post_upload, upload, Multer.single.
  rewrite <-(app_nil_r parts), process_quiet by done. done.
Qed.

Lemma upload_without_file_witness :
  forallb quiet [Field "vehicleId" "v1"; Field "type" "insurance"] = true ∧
  post_upload app_dir 1700000000000
    [Field "vehicleId" "v1"; Field "type" "insurance"] Fs.empty
  = (Response 400 {[ "message" := VStr "No file uploaded";
                     "error" := VStr "File is required" ]}, Fs.empty).
Proof.
  split; [reflexivity|].
  apply (upload_without_file app_dir 1700000000000
           [Field "vehicleId" "v1"; Field "type" "insurance"] Fs.empty).
  reflexivity.
Defined.

(** ** The generated name *)

Lemma digits_dash_inj a b x y :
  all_chars is_digit a = true → all_chars is_digit b = true →
  a +:+ "-" +:+ x = b +:+ "-" +:+ y → a = b ∧ x = y.
Proof.
  revert b. induction a as [|c a IH]; intros [|c' b] Ha Hb H;
    simpl in Ha, Hb.
  - change (String "-" x = String "-" y) in H. by injection H as ->.
  - change (String "-" x = String c' (b +:+ "-" +:+ y)) in H.
    injection H as <- _. by apply andb_true_iff in Hb as [? _].
  - change (String c (a +:+ "-" +:+ x) = String "-" y) in H.
    injection H as -> _. by apply andb_true_iff in Ha as [? _].
  - change (String c (a +:+ "-" +:+ x) = String c' (b +:+ "-" +:+ y)) in H.
    injection H as -> H.
    apply andb_true_iff in Ha as [_ Ha]. apply andb_true_iff in Hb as [_ Hb].
    destruct (IH b Ha Hb H) as [-> ->]. done.
Qed.

Lemma storage_filename_eq now1 now2 originalname1 originalname2 :
  storage_filename now1 originalname1 = storage_filename now2 originalname2 →
  now1 = now2 ∧ originalname1 = originalname2.
Proof.
  unfold storage_filename. intros H.
  apply digits_dash_inj in H as [H ->]; try apply timestamp_digits.
  by apply (inj pretty) in H as ->.
Qed.

(** X7. The name generated for a file tells its timestamp and its original
    name: two names are the same only when both the timestamps and the
    original names are. *)
Theorem storage_filename_inj now1 now2 originalname1 originalname2 :
  storage_filename now1 originalname1 = storage_filename now2 originalname2
  ↔ now1 = now2 ∧ originalname1 = originalname2.
Proof. split; [apply storage_filename_eq | by intros [-> ->]]. Qed.

(** ** A stored file and a failed answer *)

(** X5. A file can stay on the disk although the request fails.  The answer
    500 [Error processing upload] is given after the file has been stored:
    its content is on the disk at the path that the fields sent before it
    chose, and [vehicleId] or [type] has arrived more than once, so that it
    is no string when the answer is built. *)
Theorem upload_processing_error dirname now parts d resp d' :
  post_upload dirname now parts d = (resp, d') →
  json resp !! "message" = Some (VStr "Error processing upload") →
  ∃ vehicleId type originalname content n l,
    status resp = 500%N ∧
    Field "vehicleId" vehicleId ∈ parts ∧
    Field "type" type ∈ parts ∧
    File "file" originalname content ∈ parts ∧
    (n = "vehicleId" ∨ n = "type") ∧
    body_after parts ∅ !! n = Some (Many l) ∧
    let uploadPath :=
      Path.join [dirname; "../public/documents"; vehicleId; type] in
    let finalPath := Path.join [uploadPath; storage_filename now originalname] in
    Fs.files d' = <[Fs.resolve finalPath := content]> (Fs.files d).
Proof.
  unfold post_upload.
  destruct (upload dirname now parts d) as [[e d0]|[[body [f|]] d0]] eqn:E.
  { by destruct (is_multer_error e); intros [= <- _]. }
  2: { by intros [= <- _]. }
  destruct (upload_fields_present _ _ _ _ _ _ _ E) as [Hv Ht].
  rewrite Hv, Ht. simpl.
  apply upload_stored_inv in E
    as (pre & o & c & rest & up & d1 & -> & Hpre & Hrest & Hname & ->
        & Hdest & Hsize & _ & Hpath & ->).
  apply storage_destination_inv in Hdest
    as (v' & t' & Hv' & _ & Ht' & _ & -> & Hmk).
  apply mkdirSync_inr in Hmk as [Hfiles _].
  apply body_after_text in Hv' as [Hv'|Hv']; [by rewrite lookup_empty in Hv'|].
  apply body_after_text in Ht' as [Ht'|Ht']; [by rewrite lookup_empty in Ht'|].
  set (body := body_after (pre ++ File "file" o c :: rest) ∅) in *.
  assert (∀ n l, (n = "vehicleId" ∨ n = "type") → body !! n = Some (Many l) →
    ∃ vehicleId type originalname content n l,
      500%N = 500%N ∧
      Field "vehicleId" vehicleId ∈ pre ++ File "file" o c :: rest ∧
      Field "type" type ∈ pre ++ File "file" o c :: rest ∧
      File "file" originalname content ∈ pre ++ File "file" o c :: rest ∧
      (n = "vehicleId" ∨ n = "type") ∧
      body !! n = Some (Many l) ∧
      Fs.files (Fs.write (path f) c d1)
      = <[Fs.resolve
            (Path.join [Path.join [dirname; "../public/documents";
                                   vehicleId; type];
                        storage_filename now originalname]) := content]>
          (Fs.files d)) as Hgoal.
  { intros n l Hn Hbody. exists v', t', o, c, n, l.
    split; [done|]. split; [apply elem_of_app; by left|].
    split; [apply elem_of_app; by left|].
    split; [apply elem_of_app; right; left|].
    do 2 (split; [done|]). simpl. by rewrite Hpath, Hfiles. }
  destruct (body !! "vehicleId") as [[v|lv]|] eqn:Ev; try done;
    destruct (body !! "type") as [[t|lt]|] eqn:Et; try done;
    intros [= <- <-] Hm; try done; simpl.
  - by apply (Hgoal "type" lt); [right|].
  - by apply (Hgoal "vehicleId" lv); [left|].
  - by apply (Hgoal "vehicleId" lv); [left|].
Qed.

Lemma upload_processing_error_witness :
  let resp := (post_upload app_dir 1700000000000 repeated_field Fs.empty).1 in
  let d' := (post_upload app_dir 1700000000000 repeated_field Fs.empty).2 in
  json resp !! "message" = Some (VStr "Error processing upload") ∧
  ∃ vehicleId type originalname content n l,
    status resp = 500%N ∧
    Field "vehicleId" vehicleId ∈ repeated_field ∧
    Field "type" type ∈ repeated_field ∧
    File "file" originalname content ∈ repeated_field ∧
    (n = "vehicleId" ∨ n = "type") ∧
    body_after repeated_field ∅ !! n = Some (Many l) ∧
    let uploadPath :=
      Path.join [app_dir; "../public/documents"; vehicleId; type] in
    let finalPath :=
      Path.join [uploadPath; storage_filename 1700000000000 originalname] in
    Fs.files d' = <[Fs.resolve finalPath := content]> (Fs.files Fs.empty).
Proof.
  intros resp d'.
  assert (json resp !! "message" = Some (VStr "Error processing upload"))
    as Hm by (vm_compute; reflexivity).
  split; [exact Hm|].
  apply (upload_processing_error app_dir 1700000000000 repeated_field
           Fs.empty resp d'); [apply surjective_pairing | exact Hm].
Defined.

(** ** An accepted upload *)

Lemma prefixes_prefix_of a segs : a ∈ Fs.prefixes segs → a `prefix_of` segs.
Proof.
  revert a. induction segs as [|s segs IH]; intros a; simpl.
  { intros H. by apply elem_of_nil in H. }
  intros H. apply elem_of_cons in H as [->|H].
  - by exists segs.
  - apply list_elem_of_fmap in H as (a' & -> & H).
    destruct (IH _ H) as [k ->]. by exists k.
Qed.

Lemma prefixes_self segs : segs ≠ [] → segs ∈ Fs.prefixes segs.
Proof.
  induction segs as [|s segs IH]; [done|]. intros _. simpl.
  destruct segs as [|s' segs]; [left|].
  right. apply list_elem_of_fmap. eexists. split; [done|]. by apply IH.
Qed.

Lemma plain_body vehicleId type :
  body_after [Field "vehicleId" vehicleId; Field "type" type] ∅
  = <[ "type" := Text type ]> (<[ "vehicleId" := Text vehicleId ]> ∅).
Proof. reflexivity. Qed.

Lemma mkdirSync_free p d :
  (∀ a, a `prefix_of` Fs.resolve p → Fs.files d !! a = None) →
  Fs.mkdirSync p d
  = inr (Fs.Disk (Fs.dirs d ∪ list_to_set (Fs.prefixes (Fs.resolve p)))
           (Fs.files d)).
Proof.
  intros Hfree. unfold Fs.mkdirSync, Fs.is_file.
  rewrite bool_decide_eq_false_2.
  2: { rewrite Hfree by done. by intros [? ?]. }
  assert (existsb (λ segs, bool_decide (is_Some (Fs.files d !! segs)))
            (Fs.prefixes (Fs.resolve p)) = false) as ->; [|done].
  apply not_true_is_false. intros H.
  apply existsb_exists in H as (a & Ha & H).
  apply list_elem_of_In, prefixes_prefix_of, Hfree in Ha.
  rewrite Ha in H. apply bool_decide_eq_true in H. by destruct H.
Qed.

Lemma open_w_below base name d :
  base ≠ "" → clean name = true → no_separator name →
  Fs.resolve (Path.join [base; name]) ∉ Fs.dirs d →
  Fs.open_w (Path.join [base; name])
    (Fs.Disk (Fs.dirs d ∪ list_to_set (Fs.prefixes (Fs.resolve base)))
       (Fs.files d)) = None.
Proof.
  intros Hbase Hclean Hsep Hdir. unfold Fs.open_w, Fs.is_dir. simpl.
  rewrite resolve_join in * by done. rewrite Hsep in *.
  rewrite bool_decide_eq_false_2.
  2: { intros [H|H]; [by destruct (Fs.resolve base)|].
       apply elem_of_union in H as [H|H]; [done|].
       apply elem_of_list_to_set, prefixes_prefix_of in H as [k Hk].
       apply (f_equal length) in Hk. rewrite !length_app in Hk.
       simpl in Hk. lia. }
  rewrite removelast_last, bool_decide_eq_true_2; [done|].
  destruct (decide (Fs.resolve base = [])) as [|Hne]; [by left|right].
  apply elem_of_union. right. by apply elem_of_list_to_set, prefixes_self.
Qed.

(** X3. When an upload is accepted.  A request with a non-empty [vehicleId]
    and [type] followed by a file whose name has no separator and whose
    content is under the limit is answered 200 with the joined path, and
    the disk gains the directories of the upload path and the content at
    the final path, provided that no regular file is in the way of the
    upload directory and no directory has the final path. *)
Theorem upload_accepted dirname now vehicleId type originalname content d :
  vehicleId ≠ "" → type ≠ "" → originalname ≠ "" →
  no_separator originalname →
  let uploadPath :=
    Path.join [dirname; "../public/documents"; vehicleId; type] in
  let name := storage_filename now originalname in
  let finalPath := Path.join [uploadPath; name] in
  (∀ a, a `prefix_of` Fs.resolve uploadPath → Fs.files d !! a = None) →
  Fs.resolve finalPath ∉ Fs.dirs d →
  (N.of_nat (length content) < fileSize)%N →
  post_upload dirname now (plain_upload vehicleId type originalname content) d
  = (Response 200
       {[ "message" := VStr "File uploaded successfully";
          "path" := VStr (Path.join ["/documents"; vehicleId; type; name]) ]},
     Fs.Disk (Fs.dirs d ∪ list_to_set (Fs.prefixes (Fs.resolve uploadPath)))
       (<[Fs.resolve finalPath := content]> (Fs.files d))).
Proof.
  intros Hv Ht Hname Hsep uploadPath name finalPath Hfree Hdir Hsize.
  assert (storage_destination dirname
            (body_after [Field "vehicleId" vehicleId; Field "type" type] ∅)
            originalname d
          = inr (uploadPath,
                 Fs.Disk (Fs.dirs d
                            ∪ list_to_set (Fs.prefixes (Fs.resolve uploadPath)))
                   (Fs.files d))) as Hdest.
  { rewrite plain_body. unfold storage_destination.
    rewrite lookup_insert_ne, lookup_insert_eq, lookup_insert_eq by done.
    simpl. apply String.eqb_neq in Hv as ->. apply String.eqb_neq in Ht as ->.
    simpl. fold uploadPath. by rewrite mkdirSync_free. }
  assert (upload dirname now
            (plain_upload vehicleId type originalname content) d
          = inr (body_after [Field "vehicleId" vehicleId; Field "type" type] ∅,
                 Some (FileInfo "file" originalname uploadPath name finalPath
                         (N.of_nat (length content))),
                 Fs.Disk (Fs.dirs d
                            ∪ list_to_set (Fs.prefixes (Fs.resolve uploadPath)))
                   (<[Fs.resolve finalPath := content]> (Fs.files d))))
    as Hup.
  { change (plain_upload vehicleId type originalname content)
      with ([Field "vehicleId" vehicleId; Field "type" type]
              ++ File "file" originalname content :: []).
    rewrite upload_file by done. unfold Multer.handleFile.
    rewrite Hdest. fold name. fold finalPath.
    unfold finalPath.
    rewrite open_w_below;
      [| apply join_nonempty | by apply clean_storage_filename
       | by apply storage_filename_no_separator | done].
    assert ((fileSize <=? N.of_nat (length content))%N = false) as ->
      by (apply N.leb_gt; lia).
    done. }
  unfold post_upload. rewrite Hup, plain_body.
  rewrite lookup_insert_ne, lookup_insert_eq, lookup_insert_eq by done.
  simpl. apply String.eqb_neq in Hv as ->. apply String.eqb_neq in Ht as ->.
  done.
Qed.

Lemma upload_accepted_witness :
  "v1" ≠ "" ∧ "insurance" ≠ "" ∧ "card.pdf" ≠ "" ∧ no_separator "card.pdf" ∧
  let uploadPath :=
    Path.join [app_dir; "../public/documents"; "v1"; "insurance"] in
  let name := storage_filename 1700000000000 "card.pdf" in
  let finalPath := Path.join [uploadPath; name] in
  (∀ a, a `prefix_of` Fs.resolve uploadPath → Fs.files Fs.empty !! a = None) ∧
  (Fs.resolve finalPath ∉ Fs.dirs Fs.empty) ∧
  (N.of_nat (length card) < fileSize)%N ∧
  post_upload app_dir 1700000000000
    (plain_upload "v1" "insurance" "card.pdf" card) Fs.empty
  = (Response 200
       {[ "message" := VStr "File uploaded successfully";
          "path" := VStr (Path.join ["/documents"; "v1"; "insurance"; name]) ]},
     Fs.Disk (Fs.dirs Fs.empty
                ∪ list_to_set (Fs.prefixes (Fs.resolve uploadPath)))
       (<[Fs.resolve finalPath := card]> (Fs.files Fs.empty))).
Proof.
  do 3 (split; [discriminate|]). split; [reflexivity|].
  intros uploadPath name finalPath.
  assert (∀ a, a `prefix_of` Fs.resolve uploadPath →
               Fs.files Fs.empty !! a = None) as Hfree
    by (intros a _; apply lookup_empty).
  assert (Fs.resolve finalPath ∉ Fs.dirs Fs.empty) as Hdir
    by apply not_elem_of_empty.
  assert (N.of_nat (length card) < fileSize)%N as Hsize by reflexivity.
  split; [exact Hfree|]. split; [exact Hdir|]. split; [exact Hsize|].
  apply (upload_accepted app_dir 1700000000000 "v1" "insurance" "card.pdf"
           card Fs.empty);
    [discriminate | discriminate | discriminate | reflexivity
    | exact Hfree | exact Hdir | exact Hsize].
Defined.

Lemma plain_upload_parts vehicleId type originalname content :
  (∀ v, Field "vehicleId" v ∈ plain_upload vehicleId type originalname content →
        v = vehicleId) ∧
  (∀ t, Field "type" t ∈ plain_upload vehicleId type originalname content →
        t = type) ∧
  (∀ o c, File "file" o c ∈ plain_upload vehicleId type originalname content →
          o = originalname ∧ c = content).
Proof.
  unfold plain_upload. repeat split; intros;
    repeat match goal with
           | H : _ ∈ _ :: _ |- _ => apply elem_of_cons in H as [H|H]
           | H : _ ∈ [] |- _ => by apply elem_of_nil in H
           end; congruence.
Qed.

(** X8. Two uploads in a row.  After two accepted uploads for the same
    [vehicleId] and [type] the disk holds the files it had and the two
    contents at their final paths.  The two paths are the same exactly when
    the two requests had the same timestamp and the same file name; then
    the second content has replaced the first, otherwise both are there. *)
Theorem uploads_in_a_row dirname vehicleId type
    now1 originalname1 content1 now2 originalname2 content2 d r1 d1 r2 d2 :
  post_upload dirname now1
    (plain_upload vehicleId type originalname1 content1) d = (r1, d1) →
  status r1 = 200%N →
  post_upload dirname now2
    (plain_upload vehicleId type originalname2 content2) d1 = (r2, d2) →
  status r2 = 200%N →
  no_separator originalname1 → no_separator originalname2 →
  let uploadPath :=
    Path.join [dirname; "../public/documents"; vehicleId; type] in
  let key1 :=
    Fs.resolve (Path.join [uploadPath; storage_filename now1 originalname1]) in
  let key2 :=
    Fs.resolve (Path.join [uploadPath; storage_filename now2 originalname2]) in
  Fs.files d2 = <[key2 := content2]> (<[key1 := content1]> (Fs.files d)) ∧
  Fs.files d2 !! key2 = Some content2 ∧
  (key1 = key2 ↔ now1 = now2 ∧ originalname1 = originalname2) ∧
  (key1 ≠ key2 → Fs.files d2 !! key1 = Some content1).
Proof.
  intros H1 Hs1 H2 Hs2 Hsep1 Hsep2 uploadPath key1 key2.
  destruct (upload_stored_files _ _ _ _ _ _ H1 Hs1)
    as (v1 & t1 & o1 & c1 & Hv1 & Ht1 & Hf1 & _ & Hfiles1 & _).
  destruct (upload_stored_files _ _ _ _ _ _ H2 Hs2)
    as (v2 & t2 & o2 & c2 & Hv2 & Ht2 & Hf2 & _ & Hfiles2 & _).
  destruct (plain_upload_parts vehicleId type originalname1 content1)
    as (Pv1 & Pt1 & Pf1).
  destruct (plain_upload_parts vehicleId type originalname2 content2)
    as (Pv2 & Pt2 & Pf2).
  apply Pv1 in Hv1 as ->. apply Pt1 in Ht1 as ->. apply Pf1 in Hf1 as [-> ->].
  apply Pv2 in Hv2 as ->. apply Pt2 in Ht2 as ->. apply Pf2 in Hf2 as [-> ->].
  fold uploadPath key1 in Hfiles1. fold uploadPath key2 in Hfiles2.
  rewrite Hfiles2, Hfiles1.
  split; [done|]. split; [apply lookup_insert_eq|].
  assert (key1 = key2 ↔ now1 = now2 ∧ originalname1 = originalname2) as Hkeys.
  { unfold key1, key2.
    rewrite !resolve_join;
      try apply join_nonempty; try by apply clean_storage_filename.
    rewrite (storage_filename_no_separator _ _ Hsep1).
    rewrite (storage_filename_no_separator _ _ Hsep2).
    split.
    - intros H. apply app_inv_head in H. injection H as H.
      by apply storage_filename_eq.
    - by intros [-> ->]. }
  split; [done|]. intros Hne.
  rewrite lookup_insert_ne by done. apply lookup_insert_eq.
Qed.

Lemma uploads_in_a_row_witness :
  let r1 := (post_upload app_dir 1700000000000
               (plain_upload "v1" "insurance" "card.pdf" card) Fs.empty).1 in
  let d1 := (post_upload app_dir 1700000000000
               (plain_upload "v1" "insurance" "card.pdf" card) Fs.empty).2 in
  let r2 := (post_upload app_dir 1700000000001
               (plain_upload "v1" "insurance" "card.pdf" scan) d1).1 in
  let d2 := (post_upload app_dir 1700000000001
               (plain_upload "v1" "insurance" "card.pdf" scan) d1).2 in
  status r1 = 200%N ∧ status r2 = 200%N ∧
  no_separator "card.pdf" ∧
  let uploadPath :=
    Path.join [app_dir; "../public/documents"; "v1"; "insurance"] in
  let key1 :=
    Fs.resolve (Path.join [uploadPath; storage_filename 1700000000000 "card.pdf"]) in
  let key2 :=
    Fs.resolve (Path.join [uploadPath; storage_filename 1700000000001 "card.pdf"]) in
  Fs.files d2 = <[key2 := scan]> (<[key1 := card]> (Fs.files Fs.empty)) ∧
  Fs.files d2 !! key2 = Some scan ∧
  (key1 = key2 ↔ 1700000000000%N = 1700000000001%N ∧ "card.pdf" = "card.pdf") ∧
  (key1 ≠ key2 → Fs.files d2 !! key1 = Some card).
Proof.
  intros r1 d1 r2 d2.
  assert (status r1 = 200%N) as Hs1 by (vm_compute; reflexivity).
  assert (status r2 = 200%N) as Hs2 by (vm_compute; reflexivity).
  split; [exact Hs1|]. split; [exact Hs2|]. split; [reflexivity|].
  apply (uploads_in_a_row app_dir "v1" "insurance"
           1700000000000 "card.pdf" card 1700000000001 "card.pdf" scan
           Fs.empty r1 d1 r2 d2);
    [apply surjective_pairing | exact Hs1 | apply surjective_pairing
    | exact Hs2 | reflexivity | reflexivity].
Defined.

(** ** The documents directory *)

Lemma prefixes_app a b : a ≠ [] → a ∈ Fs.prefixes (a ++ b).
Proof.
  induction a as [|s a IH]; [done|]. intros _. simpl.
  destruct a as [|s' a].
  - destruct b; left.
  - right. apply list_elem_of_fmap. eexists. split; [done|]. by apply IH.
Qed.

Lemma resolve_documentsPath dirname :
  ∃ base, Fs.resolve (documentsPath dirname) = base ++ ["public"; "documents"].
Proof.
  unfold documentsPath, Path.join. simpl List.filter.
  destruct (String.eqb dirname ""); simpl negb; cbv iota;
    rewrite resolve_normalize.
  - by exists [].
  - rewrite concat_cons.
    change (String.concat "/" ["../public/documents"])
      with "../public/documents".
    unfold Fs.resolve, Path.normalizeString.
    rewrite split_append, fold_left_app.
    change (Path.split "../public/documents")
      with [".."; "public"; "documents"].
    set (R := fold_left (Path.step false) (Path.split dirname) []).
    change (fold_left (Path.step false) [".."; "public"; "documents"] R)
      with ("documents" :: "public" :: Path.step false R "..").
    exists (rev (Path.step false R "..")). simpl.
    by rewrite <-app_assoc.
Qed.

(** X9. Making the documents directory at the start.  When it succeeds it
    changes no file and removes no directory, something exists at the
    documents path afterwards, and running it again changes nothing. *)
Theorem create_documents_directory_done dirname d d1 :
  create_documents_directory dirname d = inr d1 →
  Fs.files d1 = Fs.files d ∧
  Fs.dirs d ⊆ Fs.dirs d1 ∧
  existsSync (documentsPath dirname) d1 = true ∧
  create_documents_directory dirname d1 = inr d1.
Proof.
  unfold create_documents_directory.
  destruct (existsSync (documentsPath dirname) d) eqn:E; simpl.
  { intros [= <-]. by rewrite E. }
  intros Hmk. apply mkdirSync_inr in Hmk as [Hfiles Hdirs].
  assert (existsSync (documentsPath dirname) d1 = true) as E1.
  { unfold existsSync, Fs.is_dir. rewrite bool_decide_eq_true_2; [done|].
    destruct (resolve_documentsPath dirname) as [base Hbase].
    right. rewrite Hdirs. apply elem_of_union. right.
    apply elem_of_list_to_set, prefixes_self. rewrite Hbase.
    by destruct base. }
  rewrite E1, Hfiles, Hdirs. repeat split. apply union_subseteq_l.
Qed.

Lemma create_documents_directory_done_witness :
  let d1 := Fs.Disk (list_to_set (Fs.prefixes
                       ["srv"; "app"; "public"; "documents"])) ∅ in
  create_documents_directory app_dir Fs.empty = inr d1 ∧
  Fs.files d1 = Fs.files Fs.empty ∧
  Fs.dirs Fs.empty ⊆ Fs.dirs d1 ∧
  existsSync (documentsPath app_dir) d1 = true ∧
  create_documents_directory app_dir d1 = inr d1.
Proof.
  intros d1.
  assert (create_documents_directory app_dir Fs.empty = inr d1) as H
    by (vm_compute; reflexivity).
  split; [exact H|].
  apply (create_documents_directory_done app_dir Fs.empty d1 H).
Defined.

(** X10. A regular file at the documents path.  The start of the server
    accepts it, because [existsSync] does not tell a file from a directory;
    after that every upload for a [vehicleId] and a [type] made of kept
    segments is answered 500 [Upload error] and the disk stays as it is. *)
Theorem documents_path_is_a_file dirname now vehicleId type originalname
    content d :
  Fs.is_file d (Fs.resolve (documentsPath dirname)) = true →
  clean vehicleId = true → clean type = true → originalname ≠ "" →
  create_documents_directory dirname d = inr d ∧
  ∃ text,
    post_upload dirname now
      (plain_upload vehicleId type originalname content) d
    = (Response 500 {[ "message" := VStr "Upload error";
                       "error" := VStr text ]}, d).
Proof.
  intros Hfile Hv Ht Hname. split.
  { unfold create_documents_directory, existsSync.
    by rewrite Hfile, orb_true_r. }
  assert (∃ e, is_multer_error e = false ∧
               storage_destination dirname
                 (body_after [Field "vehicleId" vehicleId; Field "type" type] ∅)
                 originalname d = inl e) as (e & He & Hdest).
  { rewrite plain_body. unfold storage_destination.
    rewrite lookup_insert_ne, lookup_insert_eq, lookup_insert_eq by done.
    simpl.
    pose proof (proj2 (String.eqb_neq _ _) (clean_nonempty _ Hv)) as ->.
    pose proof (proj2 (String.eqb_neq _ _) (clean_nonempty _ Ht)) as ->.
    simpl. unfold Fs.mkdirSync.
    destruct (Fs.is_file d (Fs.resolve
                (Path.join [dirname; "../public/documents"; vehicleId; type])));
      [eexists; split; [|reflexivity]; reflexivity|].
    rewrite resolve_upload_directory by done.
    destruct (resolve_documentsPath dirname) as [base Hbase].
    assert (existsb (Fs.is_file d)
              (Fs.prefixes (Fs.resolve (documentsPath dirname)
                              ++ Path.split vehicleId ++ Path.split type))
            = true) as ->; [|eexists; split; [|reflexivity]; reflexivity].
    apply existsb_exists. exists (Fs.resolve (documentsPath dirname)).
    split; [|done]. apply list_elem_of_In, prefixes_app.
    rewrite Hbase. by destruct base. }
  exists (message e).
  change (plain_upload vehicleId type originalname content)
    with ([Field "vehicleId" vehicleId; Field "type" type]
            ++ File "file" originalname content :: []).
  rewrite (post_upload_destination_error _ _ _ _ _ _ _ e) by done.
  unfold upload_failure. by rewrite He.
Qed.

Lemma documents_path_is_a_file_witness :
  Fs.is_file blocked (Fs.resolve (documentsPath app_dir)) = true ∧
  clean "v1" = true ∧ clean "insurance" = true ∧ "card.pdf" ≠ "" ∧
  create_documents_directory app_dir blocked = inr blocked ∧
  ∃ text,
    post_upload app_dir 1700000000000
      (plain_upload "v1" "insurance" "card.pdf" card) blocked
    = (Response 500 {[ "message" := VStr "Upload error";
                       "error" := VStr text ]}, blocked).
Proof.
  assert (Fs.is_file blocked (Fs.resolve (documentsPath app_dir)) = true)
    as Hfile by (vm_compute; reflexivity).
  split; [exact Hfile|]. do 2 (split; [reflexivity|]).
  split; [discriminate|].
  apply (documents_path_is_a_file app_dir 1700000000000 "v1" "insurance"
           "card.pdf" card blocked);
    [exact Hfile | reflexivity | reflexivity | discriminate].
Defined.
